(** * auto-syntaxe-fixer: a shallow embedding of [app.py]

    The development follows the classes of the program:
    - [Text]: the [str] methods the program calls ([split], [join],
      [strip], [rstrip], [lower]);
    - [Regex]: the fragment of Python's [re] the program's patterns use,
      as a backtracking matcher ([re.search], [re.match], [re.sub]);
    - [Paths]: [pathlib.Path(...).parts], [.name], [.suffix], [str(...)];
    - [LanguageDetector], [SyntaxAnalyzer], [ShellChampion] and
      [AutoSyntaxFixerILN3], class by class.

    Text is modelled as Stdlib strings, that is sequences of code points
    below 256; the character classes agree with Python's on that range.
    Wall-clock readings and processing times are exact rationals. *)

From Stdlib Require Import String Ascii List Bool Arith Lia ZArith QArith.
From Stdlib Require Import DecimalString.
From stdpp Require Import gmap strings list.

Import ListNotations.
Local Open Scope string_scope.
Local Open Scope list_scope.

(** Let [simpl] and [cbn] compute string concatenation on constructors. *)
Arguments String.append !s1 s2 : simpl nomatch.

(* ===================================================================== *)
(** ** Python [str] operations *)
(* ===================================================================== *)

Module Text.

(** The line feed ['\n'] and the double quote, by their codes. *)
Definition LF : ascii := ascii_of_nat 10.
Definition DQ : ascii := ascii_of_nat 34.

Definition between (lo hi n : nat) : bool := (lo <=? n)%nat && (n <=? hi)%nat.

(** [str.isspace] on one character; also the class [\s] of [re]. *)
Definition is_space (c : ascii) : bool :=
  let n := nat_of_ascii c in
  between 9 13 n || between 28 32 n || (n =? 133)%nat || (n =? 160)%nat.

(** The class [\d] of [re]: the decimal digits. *)
Definition is_digit (c : ascii) : bool := between 48 57 (nat_of_ascii c).

(** The class [\w] of [re]: alphanumeric characters and the underscore. *)
Definition is_word (c : ascii) : bool :=
  let n := nat_of_ascii c in
  between 48 57 n || between 65 90 n || (n =? 95)%nat || between 97 122 n
  || (n =? 170)%nat || between 178 179 n || (n =? 181)%nat
  || between 185 186 n || between 188 190 n
  || between 192 214 n || between 216 246 n || between 248 255 n.

(** [str.lower] on one character. *)
Definition lower_char (c : ascii) : ascii :=
  let n := nat_of_ascii c in
  if between 65 90 n || between 192 214 n || between 216 222 n
  then ascii_of_nat (n + 32) else c.

Fixpoint lower (s : string) : string :=
  match s with
  | EmptyString => EmptyString
  | String c s' => String (lower_char c) (lower s')
  end.

(** [s.lstrip()], [s.rstrip()] and [s.strip()] with no argument. *)
Fixpoint lstrip (s : string) : string :=
  match s with
  | EmptyString => EmptyString
  | String c s' => if is_space c then lstrip s' else s
  end.

Fixpoint rstrip (s : string) : string :=
  match s with
  | EmptyString => EmptyString
  | String c s' =>
      match rstrip s' with
      | EmptyString => if is_space c then EmptyString else String c EmptyString
      | r => String c r
      end
  end.

Definition strip (s : string) : string := rstrip (lstrip s).

(** [s.split(sep)] for a one-character separator: never an empty list. *)
Fixpoint split (sep : ascii) (s : string) : list string :=
  match s with
  | EmptyString => [EmptyString]
  | String c s' =>
      if Ascii.eqb c sep then EmptyString :: split sep s'
      else match split sep s' with
           | l :: ls => String c l :: ls
           | [] => [String c EmptyString]
           end
  end.

(** [sep.join(l)]. *)
Definition join (sep : string) (l : list string) : string := String.concat sep l.

(** [s.startswith(c)] for a one-character prefix. *)
Definition startswith_char (c : ascii) (s : string) : bool :=
  match s with
  | String a _ => Ascii.eqb a c
  | EmptyString => false
  end.

(** [s.rfind(c)]: the highest index of [c] in [s], [None] for Python's -1. *)
Fixpoint rfind (c : ascii) (s : string) : option nat :=
  match s with
  | EmptyString => None
  | String a s' =>
      match rfind c s' with
      | Some i => Some (S i)
      | None => if Ascii.eqb a c then Some 0%nat else None
      end
  end.

(** [s[i:]]. *)
Fixpoint drop (i : nat) (s : string) : string :=
  match i, s with
  | O, _ => s
  | S i', String _ s' => drop i' s'
  | S _, EmptyString => EmptyString
  end.

(** [s[:i]]. *)
Fixpoint take (i : nat) (s : string) : string :=
  match i, s with
  | O, _ => EmptyString
  | S i', String a s' => String a (take i' s')
  | S _, EmptyString => EmptyString
  end.

(** [str(n)] for a natural number. *)
Definition str_of_nat (n : nat) : string := NilEmpty.string_of_uint (Nat.to_uint n).

End Text.

(* ===================================================================== *)
(** ** The fragment of Python's [re] module used by the program *)
(* ===================================================================== *)

Module Regex.
Import Text.

(** Members of a bracketed set. *)
Inductive citem : Type :=
| IChar (c : ascii)
| ISpace
| IWord
| IDigit.

Definition item_match (i : citem) (a : ascii) : bool :=
  match i with
  | IChar c => Ascii.eqb a c
  | ISpace => is_space a
  | IWord => is_word a
  | IDigit => is_digit a
  end.

(** One-character patterns. Without the DOTALL flag, [.] rejects the line
    feed; a negated set accepts it. *)
Inductive cset : Type :=
| Dot
| Space
| NotSpace
| Word
| Chr (c : ascii)
| OneOf (l : list citem)
| NoneOf (l : list citem).

Definition cset_match (c : cset) (a : ascii) : bool :=
  match c with
  | Dot => negb (Ascii.eqb a LF)
  | Space => is_space a
  | NotSpace => negb (is_space a)
  | Word => is_word a
  | Chr x => Ascii.eqb a x
  | OneOf l => existsb (fun i => item_match i a) l
  | NoneOf l => negb (existsb (fun i => item_match i a) l)
  end.

(** Patterns. The quantifiers of the program's patterns are greedy and
    always apply to a one-character pattern. *)
Inductive regex : Type :=
| Eps
| Lit (s : string)
| One (c : cset)
| Star (c : cset)
| Plus (c : cset)
| Opt (c : cset)
| Bol
| Eol
| Group (n : nat) (r : regex)
| Alt (r1 r2 : regex)
| Seq (r1 r2 : regex).

(** [cat [r1; ...; rn]] is the concatenation r1...rn; [alts [s1; ...; sn]]
    is the alternation s1|...|sn of literal words. *)
Fixpoint cat (l : list regex) : regex :=
  match l with
  | [] => Eps
  | [r] => r
  | r :: l' => Seq r (cat l')
  end.

Fixpoint alts (l : list string) : regex :=
  match l with
  | [] => Eps
  | [s] => Lit s
  | s :: l' => Alt (Lit s) (alts l')
  end.

(** Captured groups, most recent binding first. *)
Definition captures : Type := list (nat * string).

Fixpoint group (n : nat) (g : captures) : string :=
  match g with
  | [] => EmptyString
  | (m, s) :: g' => if (m =? n)%nat then s else group n g'
  end.

(** The text consumed between two positions of one subject: [s] is the
    remainder before and [s'] the remainder after. *)
Definition consumed (s s' : string) : string :=
  take (String.length s - String.length s') s.

Section Matcher.

(** [re.MULTILINE]. *)
Variable multiline : bool.

(** [^]: at the start of the subject, and after each line feed when
    [multiline]. The matcher carries the character before the position. *)
Definition at_bol (prev : option ascii) : bool :=
  match prev with
  | None => true
  | Some c => multiline && Ascii.eqb c LF
  end.

(** [$]: at the end of the subject and before a line feed that ends it;
    before every line feed when [multiline]. *)
Definition at_eol (s : string) : bool :=
  match s with
  | EmptyString => true
  | String c EmptyString => Ascii.eqb c LF
  | String c _ => multiline && Ascii.eqb c LF
  end.

(** A literal word at the position. *)
Fixpoint lit (t : string) (prev : option ascii) (s : string)
  : option (option ascii * string) :=
  match t with
  | EmptyString => Some (prev, s)
  | String c t' =>
      match s with
      | String a s' => if Ascii.eqb a c then lit t' (Some a) s' else None
      | EmptyString => None
      end
  end.

Section Run.

Context {A : Type}.

(** Greedy repetition with backtracking: the longest run first, then one
    character less at a time, until the continuation succeeds. *)
Fixpoint star (c : cset) (prev : option ascii) (s : string)
  (k : option ascii -> string -> option A) : option A :=
  match s with
  | String a s' =>
      if cset_match c a then
        match star c (Some a) s' k with
        | Some r => Some r
        | None => k prev s
        end
      else k prev s
  | EmptyString => k prev s
  end.

(** The backtracking matcher in continuation-passing style: alternatives
    are tried left to right, and the first complete match wins. *)
Fixpoint run (r : regex) (prev : option ascii) (s : string) (g : captures)
  (k : option ascii -> string -> captures -> option A) : option A :=
  match r with
  | Eps => k prev s g
  | Lit t =>
      match lit t prev s with
      | Some (prev', s') => k prev' s' g
      | None => None
      end
  | One c =>
      match s with
      | String a s' => if cset_match c a then k (Some a) s' g else None
      | EmptyString => None
      end
  | Star c => star c prev s (fun prev' s' => k prev' s' g)
  | Plus c =>
      match s with
      | String a s' =>
          if cset_match c a then star c (Some a) s' (fun prev' s' => k prev' s' g)
          else None
      | EmptyString => None
      end
  | Opt c =>
      match s with
      | String a s' =>
          if cset_match c a then
            match k (Some a) s' g with
            | Some x => Some x
            | None => k prev s g
            end
          else k prev s g
      | EmptyString => k prev s g
      end
  | Bol => if at_bol prev then k prev s g else None
  | Eol => if at_eol s then k prev s g else None
  | Group n r' =>
      run r' prev s g (fun prev' s' g' => k prev' s' ((n, consumed s s') :: g'))
  | Alt r1 r2 =>
      match run r1 prev s g k with
      | Some x => Some x
      | None => run r2 prev s g k
      end
  | Seq r1 r2 =>
      run r1 prev s g (fun prev' s' g' => run r2 prev' s' g' k)
  end.

End Run.

(** A match object: the matched text, the groups, the text after it. *)
Record Match : Type := mkMatch {
  matched : string;
  groups : captures;
  after : string
}.

(** A match starting exactly at the position. *)
Definition match_here (r : regex) (prev : option ascii) (s : string) : option Match :=
  run r prev s [] (fun _ s' g => Some (mkMatch (consumed s s') g s')).

(** The leftmost match at or after the position, with the text skipped
    before it. *)
Fixpoint search_from (r : regex) (prev : option ascii) (s : string)
  : option (string * Match) :=
  match match_here r prev s with
  | Some m => Some (EmptyString, m)
  | None =>
      match s with
      | String a s' =>
          match search_from r (Some a) s' with
          | Some (skipped, m) => Some (String a skipped, m)
          | None => None
          end
      | EmptyString => None
      end
  end.

(** Replacement templates: literal text and group references [\n]. *)
Inductive piece : Type :=
| Text (s : string)
| Ref (n : nat).

Fixpoint expand (t : list piece) (g : captures) : string :=
  match t with
  | [] => EmptyString
  | Text s :: t' => s +:+ expand t' g
  | Ref n :: t' => group n g +:+ expand t' g
  end.

(** [re.sub]: every non-overlapping match, leftmost first, is replaced.
    [skip] counts the characters of the current match still to pass over.
    After an empty match the next character is copied; none of the
    program's substitution patterns matches the empty string. *)
Fixpoint sub_from (r : regex) (t : list piece) (prev : option ascii) (s : string)
  (skip : nat) {struct s} : string :=
  match skip with
  | S n =>
      match s with
      | String a s' => sub_from r t (Some a) s' n
      | EmptyString => EmptyString
      end
  | O =>
      match match_here r prev s with
      | Some m =>
          expand t (groups m) +:+
          match s with
          | String a s' =>
              match String.length (matched m) with
              | O => String a (sub_from r t (Some a) s' O)
              | S n => sub_from r t (Some a) s' n
              end
          | EmptyString => EmptyString
          end
      | None =>
          match s with
          | String a s' => String a (sub_from r t (Some a) s' O)
          | EmptyString => EmptyString
          end
      end
  end.

End Matcher.

(** [re.search(r, s)] and [re.search(r, s, re.MULTILINE)] as truth values,
    [re.match(r, s)] likewise, and [re.sub(r, t, s)]. *)
Definition search (r : regex) (s : string) : bool :=
  match search_from false r None s with Some _ => true | None => false end.

Definition search_multiline (r : regex) (s : string) : bool :=
  match search_from true r None s with Some _ => true | None => false end.

Definition match_ (r : regex) (s : string) : bool :=
  match match_here false r None s with Some _ => true | None => false end.

Definition sub (r : regex) (t : list piece) (s : string) : string :=
  sub_from false r t None s O.

End Regex.

(* ===================================================================== *)
(** ** [hashlib.md5(content.encode()).hexdigest()] *)
(* ===================================================================== *)

Module Hashlib.

Local Open Scope N_scope.

(** 32-bit words as [N], the wrap-around written out. *)
Definition mask32 : N := 4294967295.
Definition add32 (a b : N) : N := N.land (a + b) mask32.
Definition not32 (a : N) : N := N.lxor a mask32.
Definition rotl32 (x c : N) : N :=
  N.land (N.lor (N.shiftl x c) (N.shiftr x (32 - c))) mask32.

(** [str.encode()]: UTF-8 of code points below 256. *)
Fixpoint encode (s : string) : list N :=
  match s with
  | EmptyString => []
  | String c s' =>
      let n := N_of_ascii c in
      if n <? 128 then n :: encode s'
      else (192 + N.shiftr n 6) :: (128 + N.land n 63) :: encode s'
  end.

Definition K : list N :=
  [ 3614090360; 3905402710; 606105819; 3250441966; 4118548399; 1200080426; 2821735955; 4249261313;
    1770035416; 2336552879; 4294925233; 2304563134; 1804603682; 4254626195; 2792965006; 1236535329;
    4129170786; 3225465664; 643717713; 3921069994; 3593408605; 38016083; 3634488961; 3889429448;
    568446438; 3275163606; 4107603335; 1163531501; 2850285829; 4243563512; 1735328473; 2368359562;
    4294588738; 2272392833; 1839030562; 4259657740; 2763975236; 1272893353; 4139469664; 3200236656;
    681279174; 3936430074; 3572445317; 76029189; 3654602809; 3873151461; 530742520; 3299628645;
    4096336452; 1126891415; 2878612391; 4237533241; 1700485571; 2399980690; 4293915773; 2240044497;
    1873313359; 4264355552; 2734768916; 1309151649; 4149444226; 3174756917; 718787259; 3951481745 ].

Definition shifts : list N :=
  [ 7; 12; 17; 22; 7; 12; 17; 22; 7; 12; 17; 22; 7; 12; 17; 22;
    5; 9; 14; 20; 5; 9; 14; 20; 5; 9; 14; 20; 5; 9; 14; 20;
    4; 11; 16; 23; 4; 11; 16; 23; 4; 11; 16; 23; 4; 11; 16; 23;
    6; 10; 15; 21; 6; 10; 15; 21; 6; 10; 15; 21; 6; 10; 15; 21 ].

(** The message followed by the bit 1, zeros up to 56 modulo 64 bytes, and
    the bit length as 8 little-endian bytes. *)
Definition le_bytes (count : nat) (n : N) : list N :=
  List.map (fun i => N.land (N.shiftr n (8 * N.of_nat i)) 255) (seq 0 count).

Definition pad (msg : list N) : list N :=
  let len := List.length msg in
  msg ++ [128] ++ List.repeat 0 ((119 - len mod 64) mod 64)%nat
      ++ le_bytes 8 (N.land (8 * N.of_nat len) 18446744073709551615).

(** The 16 little-endian words of a 64-byte block. *)
Fixpoint words (count : nat) (block : list N) : list N :=
  match count with
  | O => []
  | S count' =>
      match block with
      | b0 :: b1 :: b2 :: b3 :: rest =>
          (b0 + N.shiftl b1 8 + N.shiftl b2 16 + N.shiftl b3 24) :: words count' rest
      | _ => []
      end
  end.

Definition state : Type := (N * N * N * N)%type.

Definition step (M : list N) (st : state) (i : nat) : state :=
  let '(A, B, C, D) := st in
  let '(F, g) :=
    if (i <? 16)%nat then (N.lor (N.land B C) (N.land (not32 B) D), i)
    else if (i <? 32)%nat then (N.lor (N.land D B) (N.land (not32 D) C), ((5 * i + 1) mod 16)%nat)
    else if (i <? 48)%nat then (N.lxor (N.lxor B C) D, ((3 * i + 5) mod 16)%nat)
    else (N.lxor C (N.lor B (not32 D)), ((7 * i) mod 16)%nat) in
  let F' := add32 (add32 (add32 F A) (nth i K 0)) (nth g M 0) in
  (D, add32 B (rotl32 F' (nth i shifts 0)), B, C).

Definition compress (st : state) (block : list N) : state :=
  let '(a0, b0, c0, d0) := st in
  let '(A, B, C, D) := fold_left (step (words 16 block)) (seq 0 64) st in
  (add32 a0 A, add32 b0 B, add32 c0 C, add32 d0 D).

Fixpoint blocks (count : nat) (bytes : list N) (st : state) : state :=
  match count with
  | O => st
  | S count' => blocks count' (skipn 64 bytes) (compress st (firstn 64 bytes))
  end.

Definition hex_digit (n : N) : ascii :=
  if n <? 10 then ascii_of_N (48 + n) else ascii_of_N (87 + n).

Fixpoint hex (bytes : list N) : string :=
  match bytes with
  | [] => EmptyString
  | b :: rest => String (hex_digit (N.shiftr b 4)) (String (hex_digit (N.land b 15)) (hex rest))
  end.

Definition md5_hexdigest (s : string) : string :=
  let bytes := pad (encode s) in
  let '(a, b, c, d) :=
    blocks (List.length bytes / 64) bytes (1732584193, 4023233417, 2562383102, 271733878) in
  hex (le_bytes 4 a ++ le_bytes 4 b ++ le_bytes 4 c ++ le_bytes 4 d).

End Hashlib.

(* ===================================================================== *)
(** ** [pathlib.Path] on POSIX path strings *)
(* ===================================================================== *)

Module Paths.
Import Text.

Definition SLASH : ascii := "/"%char.
Definition DOT : ascii := "."%char.

(** The components of a path: empty and ["."] components are dropped. *)
Definition components (s : string) : list string :=
  List.filter (fun p => negb (String.eqb p "") && negb (String.eqb p "."))
    (split SLASH s).

(** The root: ["/"], or ["//"] for exactly two leading slashes. *)
Definition root (s : string) : string :=
  match s with
  | String a (String b (String c _)) =>
      if Ascii.eqb a SLASH then
        if Ascii.eqb b SLASH && negb (Ascii.eqb c SLASH) then "//" else "/"
      else ""
  | String a (String b EmptyString) =>
      if Ascii.eqb a SLASH then if Ascii.eqb b SLASH then "//" else "/" else ""
  | String a EmptyString => if Ascii.eqb a SLASH then "/" else ""
  | EmptyString => ""
  end.

(** [Path(s).parts]. *)
Definition parts (s : string) : list string :=
  match root s with
  | EmptyString => components s
  | r => r :: components s
  end.

(** [Path(s).name]: the final component, if any. *)
Definition name (s : string) : string := List.last (components s) "".

(** [Path(s).suffix]: the final component from its last dot, when that dot
    is neither its first nor its last character. *)
Definition suffix (s : string) : string :=
  let n := name s in
  match rfind DOT n with
  | Some i => if (0 <? i)%nat && (i <? String.length n - 1)%nat then drop i n else ""
  | None => ""
  end.

(** [str(Path(s))]. *)
Definition str (s : string) : string :=
  match root s +:+ join "/" (components s) with
  | EmptyString => "."
  | p => p
  end.

End Paths.

(* ===================================================================== *)
(** ** [class LanguageDetector] *)
(* ===================================================================== *)

Module LanguageDetector.
Import Text Regex.

(** A dict read in insertion order: the first binding of a key. *)
Fixpoint lookup {V : Type} (key : string) (d : list (string * V)) : option V :=
  match d with
  | [] => None
  | (k, v) :: d' => if String.eqb k key then Some v else lookup key d'
  end.

Definition extension_map : list (string * string) :=
  [ (".py", "python"); (".js", "javascript"); (".jsx", "javascript");
    (".ts", "typescript"); (".tsx", "typescript"); (".go", "go");
    (".rs", "rust"); (".java", "java"); (".cpp", "cpp"); (".cc", "cpp");
    (".cxx", "cpp"); (".c", "c"); (".h", "c"); (".hpp", "cpp") ].

(** [^\s*word\s+], the shape of most content signatures. *)
Definition line_keyword (word : string) : regex :=
  cat [Bol; Star Space; Lit word; Plus Space].

Definition content_patterns : list (string * list regex) :=
  [ ("python",
      [ line_keyword "def"; line_keyword "class"; line_keyword "import";
        (* ^\s*from\s+.+import *)
        cat [Bol; Star Space; Lit "from"; Plus Space; Plus Dot; Lit "import"] ]);
    ("javascript",
      [ line_keyword "function"; line_keyword "const"; line_keyword "let";
        (* require\( *)
        Lit "require(" ]);
    ("go",
      [ line_keyword "package"; line_keyword "func";
        (* ^\s*import\s+\( *)
        cat [Bol; Star Space; Lit "import"; Plus Space; Lit "("];
        line_keyword "var" ]);
    ("rust",
      [ line_keyword "fn"; line_keyword "pub"; line_keyword "use";
        line_keyword "struct" ]);
    ("java",
      [ (* ^\s*public\s+class *)
        cat [Bol; Star Space; Lit "public"; Plus Space; Lit "class"];
        line_keyword "package"; line_keyword "import" ]) ].

(** [sum(1 for pattern in patterns if re.search(pattern, content, re.MULTILINE))] *)
Definition count_matches (patterns : list regex) (content : string) : nat :=
  List.length (List.filter (fun p => search_multiline p content) patterns).

(** The loop over [content_patterns.items()]: the first language with at
    least two matching signatures. *)
Fixpoint detect_by_content (d : list (string * list regex)) (content : string)
  : option string :=
  match d with
  | [] => None
  | (lang, patterns) :: d' =>
      if (2 <=? count_matches patterns content)%nat then Some lang
      else detect_by_content d' content
  end.

(** [detect_language(file_path, content=None)]. *)
Definition detect_language (file_path : string) (content : option string) : string :=
  let file_ext := lower (Paths.suffix file_path) in
  match lookup file_ext extension_map with
  | Some lang => lang
  | None =>
      match content with
      | Some (String c text) =>
          match detect_by_content content_patterns (String c text) with
          | Some lang => lang
          | None => "unknown"
          end
      | _ => "unknown"
      end
  end.

End LanguageDetector.

(* ===================================================================== *)
(** ** [class SyntaxAnalyzer] *)
(* ===================================================================== *)

Module SyntaxAnalyzer.
Import Text Regex.

(** What calling a rule's [fix] gives: the corrected line, or the message
    of the exception it raised. *)
Inductive outcome : Type :=
| Returned (fixed_line : string)
| Raised (message : string).

(** One entry of [fix_patterns[language]]. *)
Record Rule : Type := mkRule {
  pattern : regex;
  fix_ : string -> outcome;
  description : string
}.

Definition keywords_block : list string :=
  ["class"; "def"; "if"; "for"; "while"; "try"; "except"; "finally"; "with"].

Definition keywords_continue : list string :=
  ["elif"; "else"; "except"; "finally"].

(** [_fix_python_indentation]. *)
Definition _fix_python_indentation (line : string) : string :=
  match strip line with
  | EmptyString => line
  | stripped =>
      if match_ (cat [Bol; Star Space; Group 1 (alts keywords_block)]) line
      then "    " +:+ stripped
      else if match_ (cat [Bol; Star Space; Group 1 (alts keywords_continue)]) line
      then stripped
      else "    " +:+ stripped
  end.

(** [_fix_go_imports]. *)
Definition _fix_go_imports (line : string) : string := line.

(** (if|elif|else|for|while|def|class|try|except|finally|with)\s+[^:]*$ *)
Definition missing_colon : Rule :=
  mkRule
    (cat [ Group 1 (alts ["if"; "elif"; "else"; "for"; "while"; "def"; "class";
                          "try"; "except"; "finally"; "with"]);
           Plus Space; Star (NoneOf [IChar ":"]); Eol ])
    (fun line => Returned (rstrip line +:+ ":"))
    "Missing colon".

(** print\s+[^(].*[^)]$ ; the fix substitutes print\s+(.+) by print(\1) *)
Definition print_parentheses : Rule :=
  mkRule
    (cat [ Lit "print"; Plus Space; One (NoneOf [IChar "("]); Star Dot;
           One (NoneOf [IChar ")"]); Eol ])
    (fun line =>
       Returned (sub (cat [Lit "print"; Plus Space; Group 1 (Plus Dot)])
                     [Text "print("; Ref 1; Text ")"] line))
    "Print statement needs parentheses".

(** ^\s*(\S.* ) *)
Definition indentation : Rule :=
  mkRule
    (cat [Bol; Star Space; Group 1 (cat [One NotSpace; Star Dot])])
    (fun line => Returned (_fix_python_indentation line))
    "Indentation error".

(** [^;{}\s]$ *)
Definition missing_semicolon : Rule :=
  mkRule
    (cat [One (NoneOf [IChar ";"; IChar "{"; IChar "}"; ISpace]); Eol])
    (fun line => Returned (rstrip line +:+ ";"))
    "Missing semicolon".

(** var\s+(\w+)\s*=\s*[Q\'\d\[\{] where Q is the double quote; the fix
    substitutes var\s+ by const followed by a space *)
Definition var_to_const : Rule :=
  mkRule
    (cat [ Lit "var"; Plus Space; Group 1 (Plus Word); Star Space; Lit "=";
           Star Space;
           One (OneOf [IChar DQ; IChar "'"; IDigit; IChar "["; IChar "{"]) ])
    (fun line => Returned (sub (cat [Lit "var"; Plus Space]) [Text "const "] line))
    "Use const instead of var".

(** ([^=!])===?([^=]) ; the fix substitutes it by \1===\2 *)
Definition strict_equality : regex :=
  cat [ Group 1 (One (NoneOf [IChar "="; IChar "!"])); Lit "=="; Opt (Chr "=");
        Group 2 (One (NoneOf [IChar "="])) ].

Definition double_equals : Rule :=
  mkRule strict_equality
    (fun line => Returned (sub strict_equality [Ref 1; Text "==="; Ref 2] line))
    "Use strict equality".

(** import\s+Q[^Q]*Q\s*$ where Q is the double quote *)
Definition unused_import : Rule :=
  mkRule
    (cat [ Lit "import"; Plus Space; One (Chr DQ); Star (NoneOf [IChar DQ]);
           One (Chr DQ); Star Space; Eol ])
    (fun line => Returned (_fix_go_imports line))
    "Unused import".

(** (\w+)\s*{\s*$ ; the fix substitutes it by \1 { *)
Definition brace_spacing : regex :=
  cat [Group 1 (Plus Word); Star Space; Lit "{"; Star Space; Eol].

Definition gofmt_spacing : Rule :=
  mkRule brace_spacing
    (fun line => Returned (sub brace_spacing [Ref 1; Text " {"] line))
    "Go formatting".

(** [self.fix_patterns]: per language, the rules by name, in the order
    the dict iterates them. *)
Definition fix_patterns : list (string * list (string * Rule)) :=
  [ ("python",
      [ ("missing_colon", missing_colon);
        ("print_parentheses", print_parentheses);
        ("indentation", indentation) ]);
    ("javascript",
      [ ("missing_semicolon", missing_semicolon);
        ("var_to_const", var_to_const);
        ("double_equals", double_equals) ]);
    ("go",
      [ ("unused_import", unused_import);
        ("gofmt_spacing", gofmt_spacing) ]) ].

(** The locals of [analyze_syntax_errors] that its loops update. *)
Record Locals : Type := mkLocals {
  lines : list string;
  errors_found : list string;
  fixes_applied : list string
}.

(** The body of the inner loop, for the rule [fix_name] on the line
    [line] read at index [i]. The transform receives [line], the text read
    when the outer loop reached index [i]; [lines[i]] is overwritten when
    the transform returns something else. *)
Definition apply_rule (i : nat) (line : string) (st : Locals)
  (entry : string * Rule) : Locals :=
  let '(fix_name, fix_config) := entry in
  if search (pattern fix_config) line then
    let errors :=
      errors_found st ++
      ["Line " +:+ str_of_nat (i + 1) +:+ ": " +:+ description fix_config] in
    match fix_ fix_config line with
    | Returned fixed_line =>
        if String.eqb fixed_line line
        then mkLocals (lines st) errors (fixes_applied st)
        else mkLocals (<[i := fixed_line]> (lines st)) errors
               (fixes_applied st ++
                ["Fixed " +:+ fix_name +:+ " on line " +:+ str_of_nat (i + 1)])
    | Raised e =>
        mkLocals (lines st) errors
          (fixes_applied st ++
           ["Attempted " +:+ fix_name +:+ " fix on line " +:+ str_of_nat (i + 1)
            +:+ ": " +:+ e])
    end
  else st.

(** [for i, line in enumerate(lines)]: [count] lines remain from index [i];
    each is read from the list as it stands when its turn comes. *)
Fixpoint scan_lines (patterns : list (string * Rule)) (count i : nat) (st : Locals)
  : Locals :=
  match count with
  | O => st
  | S count' =>
      match lines st !! i with
      | Some line =>
          scan_lines patterns count' (S i)
            (fold_left (apply_rule i line) patterns st)
      | None => st
      end
  end.

(** The result tuple: the issues followed by the fixes, and the text. *)
Definition result : Type := (list string * string)%type.

(** The computation of [analyze_syntax_errors] on a cache miss. *)
Definition analyze (patterns : list (string * Rule)) (content : string) : result :=
  let lines0 := split LF content in
  let st := scan_lines patterns (List.length lines0) 0 (mkLocals lines0 [] []) in
  (errors_found st ++ fixes_applied st, join (String LF "") (lines st)).

Definition cache_key (language content : string) : string :=
  language +:+ "_" +:+ Hashlib.md5_hexdigest content.

(** [analyze_syntax_errors(content, language)], with [self.pattern_cache]
    passed in and out. *)
Definition analyze_syntax_errors (pattern_cache : gmap string result)
  (content language : string) : result * gmap string result :=
  match LanguageDetector.lookup language fix_patterns with
  | None => (([], content), pattern_cache)
  | Some patterns =>
      match pattern_cache !! cache_key language content with
      | Some cached => (cached, pattern_cache)
      | None =>
          let r := analyze patterns content in
          (r, <[cache_key language content := r]> pattern_cache)
      end
  end.

End SyntaxAnalyzer.

(* ===================================================================== *)
(** ** [class ShellChampion] *)
(* ===================================================================== *)

Module ShellChampion.
Import Text.

(** What the subprocess of [execute_tool] did, as the method observes it:
    [asyncio.wait_for] timed out, some step raised, or the process exited
    with a return code and a standard error text, the temporary file then
    holding [file_after] ([None] when it no longer exists). *)
Inductive ToolRun : Type :=
| TimedOut
| Crashed (message : string)
| Exited (returncode : Z) (stderr : string) (file_after : option string).

(** The object and the machine it runs on: [available_tools] as computed
    by [_detect_available_tools]; [write_temp file_path content] is the
    exception message of writing the temporary file, if it fails;
    [communicate tool file_path content] is the run of the tool. *)
Record Shell : Type := mkShell {
  available_tools : gmap string bool;
  write_temp : string -> string -> option string;
  communicate : string -> string -> string -> ToolRun
}.

(** The keys of the local dict [commands]. *)
Definition commands : list string := ["black"; "autopep8"; "isort"].

(** [execute_tool(tool, file_path, content)]: success, text, diagnostics. *)
Definition execute_tool (self : Shell) (tool file_path content : string)
  : bool * string * list string :=
  if negb (default false (available_tools self !! tool)) then
    (false, content, ["Tool " +:+ tool +:+ " not available"])
  else
    match write_temp self file_path content with
    | Some e => (false, content, [e])
    | None =>
        if negb (existsb (String.eqb tool) commands) then
          (false, content, ["Unknown tool: " +:+ tool])
        else
          match communicate self tool file_path content with
          | TimedOut => (false, content, ["Tool execution timeout"])
          | Crashed e => (false, content, [e])
          | Exited returncode stderr (Some fixed_content) =>
              ((returncode =? 0)%Z, fixed_content,
               match stderr with
               | EmptyString => []
               | _ => split LF stderr
               end)
          | Exited _ _ None => (false, content, ["Failed to process file"])
          end
    end.

End ShellChampion.

(* ===================================================================== *)
(** ** [class AutoSyntaxFixerILN3] *)
(* ===================================================================== *)

Module AutoSyntaxFixerILN3.
Import Text ShellChampion.

(** [@dataclass FixResult]. *)
Record FixResult : Type := mkFixResult {
  file_path : string;
  original_errors : list string;
  fixes_applied : list string;
  success : bool;
  language : string;
  processing_time : Q;
  tool_used : string
}.

(** [self.stats]. *)
Record Stats : Type := mkStats {
  files_processed : nat;
  total_fixes : nat;
  success_rate : Q;
  avg_processing_time : Q
}.

(** The mutable part of the object together with its shell. *)
Record Fixer : Type := mkFixer {
  shell_champion : Shell;
  pattern_cache : gmap string SyntaxAnalyzer.result;
  stats : Stats
}.

(** The object after [__init__]. *)
Definition init (shell : Shell) : Fixer :=
  mkFixer shell ∅ (mkStats 0 0 0 0).

Definition tool_mapping : list (string * list string) :=
  [ ("python", ["black"; "autopep8"; "isort"]); ("javascript", []);
    ("typescript", []); ("go", []); ("rust", []); ("cpp", []); ("c", []);
    ("java", []) ].

(** [for tool in tools_for_lang]: the first tool that succeeds ends the
    loop; the diagnostics of those that failed accumulate. *)
Fixpoint try_tools (shell : Shell) (path : string) (tools : list string)
  (final_content : string) (shell_errors : list string)
  : bool * string * list string :=
  match tools with
  | [] => (false, final_content, shell_errors)
  | tool :: tools' =>
      let '(ok, tool_corrected, errors) :=
        execute_tool shell tool path final_content in
      if ok then (true, tool_corrected, shell_errors)
      else try_tools shell path tools' final_content (shell_errors ++ errors)
  end.

Definition Q_of_nat (n : nat) : Q := inject_Z (Z.of_nat n).

(** The statistics block of [fix_file_content], for a file with [fixes]
    entries in [all_fixes] and [seconds] of processing time. *)
Definition update_stats (st : Stats) (fixes : nat) (seconds : Q) : Stats :=
  let processed := (files_processed st + 1)%nat in
  let total := (total_fixes st + fixes)%nat in
  let rate :=
    if (0 <? processed)%nat then (Q_of_nat total / Q_of_nat processed * 100)%Q
    else success_rate st in
  let avg :=
    if (processed =? 1)%nat then (seconds * 1000)%Q
    else ((avg_processing_time st * Q_of_nat (processed - 1) + seconds * 1000)
          / Q_of_nat processed)%Q in
  mkStats processed total rate avg.

(** [fix_file_content(file_path, content)]. [start_time] is the reading of
    [time.time()] on entry and [end_time] the reading taken for the
    processing time. *)
Definition fix_file_content (self : Fixer) (start_time end_time : Q)
  (path content : string) : FixResult * Fixer :=
  let lang := LanguageDetector.detect_language path (Some content) in
  if String.eqb lang "unknown" then
    (mkFixResult path ["Unknown file type"] [] false lang
       (end_time - start_time)%Q "ILN_Auto_Syntax_Fixer",
     self)
  else
    let '((analysis_result, corrected_content), cache) :=
      SyntaxAnalyzer.analyze_syntax_errors (pattern_cache self) content lang in
    let tools_for_lang :=
      default [] (LanguageDetector.lookup lang tool_mapping) in
    let '(shell_success, final_content, shell_errors) :=
      try_tools (shell_champion self) path tools_for_lang corrected_content [] in
    let half := (List.length analysis_result / 2)%nat in
    let all_errors := firstn half analysis_result ++ shell_errors in
    let all_fixes :=
      skipn half analysis_result ++
      (if shell_success then ["Applied external tool formatting"] else []) in
    let seconds := (end_time - start_time)%Q in
    (mkFixResult path all_errors all_fixes
       ((0 <? List.length all_fixes)%nat || (List.length all_errors =? 0)%nat)
       lang seconds
       ("ILN_Level3_" +:+ (if shell_success then "with_shell" else "internal")),
     mkFixer (shell_champion self) cache
       (update_stats (stats self) (List.length all_fixes) seconds)).

(** One entry of a directory walk: the path as [str(file_path)] gives it,
    [is_file()], and what opening and reading it as UTF-8 gives: the text,
    or the message of the [UnicodeDecodeError] or [IOError]. *)
Record DirEntry : Type := mkDirEntry {
  entry_path : string;
  is_file : bool;
  read_text : string + string
}.

(** The file system as [fix_repository] sees it. *)
Record FileSystem : Type := mkFileSystem {
  path_exists : string -> bool;
  rglob : string -> list DirEntry
}.

Definition supported_extensions : list string :=
  [".py"; ".js"; ".jsx"; ".ts"; ".tsx"; ".go"; ".rs"; ".java";
   ".cpp"; ".cc"; ".cxx"; ".c"; ".h"].

Definition mem (x : string) (l : list string) : bool := existsb (String.eqb x) l.

(** The condition under which the walk keeps an entry. *)
Definition eligible (e : DirEntry) : bool :=
  let ps := Paths.parts (entry_path e) in
  is_file e
  && mem (lower (Paths.suffix (entry_path e))) supported_extensions
  && negb (existsb (startswith_char Paths.DOT) ps)
  && negb (mem "node_modules" ps)
  && negb (mem "__pycache__" ps).

(** A synthetic failure result. *)
Definition failure (path issue : string) : FixResult :=
  mkFixResult path [issue] [] false "unknown" 0 "ILN_Auto_Syntax_Fixer".

(** A task created by [asyncio.create_task]: run against the object, it
    gives what [asyncio.gather(..., return_exceptions=True)] reports for
    it, a result or the message of the exception raised. *)
Definition Task : Type := Fixer -> (FixResult + string) * Fixer.

(** The preparation loop: a readable file becomes a task, an unreadable
    one an immediate failure result. *)
Fixpoint prepare (clock : string -> Q * Q) (files : list DirEntry)
  : list FixResult * list Task :=
  match files with
  | [] => ([], [])
  | f :: files' =>
      let '(results, tasks) := prepare clock files' in
      match read_text f with
      | inl content =>
          let task : Task := fun self =>
            let '(r, self') :=
              fix_file_content self (fst (clock (entry_path f)))
                (snd (clock (entry_path f))) (entry_path f) content in
            (inl r, self') in
          (results, task :: tasks)
      | inr e =>
          (failure (entry_path f) ("Cannot read file: " +:+ e) :: results, tasks)
      end
  end.

(** [await asyncio.gather] with [return_exceptions=True]: the outcomes in
    the order of the tasks. The tasks run one after the other in that
    order, which is one schedule of the event loop. *)
Fixpoint gather (tasks : list Task) (self : Fixer)
  : list (FixResult + string) * Fixer :=
  match tasks with
  | [] => ([], self)
  | t :: tasks' =>
      let '(r, self') := t self in
      let '(rs, self'') := gather tasks' self' in
      (r :: rs, self'')
  end.

(** The loop over [completed_results]. *)
Definition collect (completed : list (FixResult + string)) : list FixResult :=
  List.map (fun r =>
              match r with
              | inl res => res
              | inr e => failure "unknown" ("Processing error: " +:+ e)
              end) completed.

(** The files the walk keeps, in the order it meets them. *)
Definition discover (fs : FileSystem) (repo_path : string) : list DirEntry :=
  List.filter eligible (rglob fs (Paths.str repo_path)).

Definition max_workers (files_to_process : list DirEntry) : nat :=
  Nat.min 8 (List.length files_to_process).

(** [fix_repository(repo_path)]. [clock] gives, for each file, the two
    readings of [time.time()] its task takes. *)
Definition fix_repository (self : Fixer) (fs : FileSystem)
  (clock : string -> Q * Q) (repo_path : string) : list FixResult * Fixer :=
  let repo := Paths.str repo_path in
  if negb (path_exists fs repo) then
    ([failure repo "Repository path does not exist"], self)
  else
    match discover fs repo_path with
    | [] => ([failure repo "No supported files found"], self)
    | files_to_process =>
        let '(results, tasks) := prepare clock files_to_process in
        match tasks with
        | [] => (results, self)
        | _ =>
            let '(completed_results, self') := gather tasks self in
            (results ++ collect completed_results, self')
        end
    end.



End AutoSyntaxFixerILN3.

(* ===================================================================== *)
(** ** Notions used to state the properties *)
(* ===================================================================== *)

Module Spec.
Import Text Regex SyntaxAnalyzer ShellChampion AutoSyntaxFixerILN3.

(** A machine with no formatting tool installed. *)
Definition bare_shell : Shell :=
  mkShell ∅ (fun _ _ => None) (fun _ _ _ => TimedOut).

(** The language [fix_file_content] detects for a call. *)
Definition detected (path content : string) : string :=
  LanguageDetector.detect_language path (Some content).



Fixpoint total (l : list Q) : Q :=
  match l with
  | [] => 0
  | x :: l' => (x + total l')%Q
  end.

(** The outputs of the transforms that change [line], in rule order: one
    for each rule whose pattern matches [line] and whose transform,
    applied to [line], returns another text. *)
Fixpoint changed (patterns : list (string * Rule)) (line : string) : list string :=
  match patterns with
  | [] => []
  | (_, r) :: patterns' =>
      if search (pattern r) line then
        match fix_ r line with
        | Returned fixed_line =>
            if String.eqb fixed_line line then changed patterns' line
            else fixed_line :: changed patterns' line
        | Raised _ => changed patterns' line
        end
      else changed patterns' line
  end.

(** The issue entries of the line at index [i]: one per matching rule. *)
Fixpoint line_issues (patterns : list (string * Rule)) (i : nat) (line : string)
  : list string :=
  match patterns with
  | [] => []
  | (_, r) :: patterns' =>
      if search (pattern r) line
      then ("Line " +:+ str_of_nat (i + 1) +:+ ": " +:+ description r)
           :: line_issues patterns' i line
      else line_issues patterns' i line
  end.

(** The fix entries of the line at index [i]: one per matching rule whose
    transform of [line] differs from [line] or raises. *)
Fixpoint line_fixes (patterns : list (string * Rule)) (i : nat) (line : string)
  : list string :=
  match patterns with
  | [] => []
  | (fix_name, r) :: patterns' =>
      if search (pattern r) line then
        match fix_ r line with
        | Returned fixed_line =>
            if String.eqb fixed_line line then line_fixes patterns' i line
            else ("Fixed " +:+ fix_name +:+ " on line " +:+ str_of_nat (i + 1))
                 :: line_fixes patterns' i line
        | Raised e =>
            ("Attempted " +:+ fix_name +:+ " fix on line " +:+ str_of_nat (i + 1)
             +:+ ": " +:+ e) :: line_fixes patterns' i line
        end
      else line_fixes patterns' i line
  end.

(** The entries of all lines, numbered from index [i]. *)
Fixpoint per_line (f : nat -> string -> list string) (i : nat) (l : list string)
  : list string :=
  match l with
  | [] => []
  | line :: l' => f i line ++ per_line f (S i) l'
  end.

(** [c in s] for a character. *)
Fixpoint has_char (c : ascii) (s : string) : bool :=
  match s with
  | EmptyString => false
  | String a s' => Ascii.eqb a c || has_char c s'
  end.

(** A cache is sound when each entry under the key of a language and a
    content holds what the analyzer computes for them. *)
Definition cache_sound (cache : gmap string result) : Prop :=
  forall language content patterns r,
    LanguageDetector.lookup language fix_patterns = Some patterns ->
    cache !! cache_key language content = Some r ->
    r = analyze patterns content.

(** [self.fix_patterns[language]], empty for a language without rules. *)
Definition rules_of (language : string) : list (string * Rule) :=
  default [] (LanguageDetector.lookup language fix_patterns).

(** [s.startswith(prefix)]. *)
Fixpoint startswith (prefix s : string) : bool :=
  match prefix, s with
  | EmptyString, _ => true
  | String c prefix', String a s' => Ascii.eqb a c && startswith prefix' s'
  | String _ _, EmptyString => false
  end.

(** The substitution pattern print\s+(.+) of print_parentheses and its
    replacement print(\1). *)
Definition print_call : regex := cat [Lit "print"; Plus Space; Group 1 (Plus Dot)].
Definition print_call_template : list piece := [Text "print("; Ref 1; Text ")"].

(** ^\s*(kw1|...|kwn), the shape of the two tests of
    [_fix_python_indentation]. *)
Definition line_starts (keywords : list string) : regex :=
  cat [Bol; Star Space; Group 1 (alts keywords)].

(** A non-empty word without blanks, such as a keyword. *)
Fixpoint all_chars (p : ascii -> bool) (s : string) : bool :=
  match s with
  | EmptyString => true
  | String a s' => p a && all_chars p s'
  end.

Definition plain_word (w : string) : bool :=
  negb (String.eqb w "") && all_chars (fun c => negb (is_space c)) w.

(** [s.endswith(c)] for a character, as a proposition. *)
Definition ends_with (c : ascii) (s : string) : Prop :=
  exists t, s = t +:+ String c "".

(** The rule does not trigger on its own output for [line]: when its
    pattern matches [line], it does not match the transform of [line]. *)
Definition quiet_on_own_output (line : string) (entry : string * Rule) : bool :=
  if search (pattern (snd entry)) line then
    match fix_ (snd entry) line with
    | Returned out => negb (search (pattern (snd entry)) out)
    | Raised _ => false
    end
  else true.

(** The rule, run again on its own output for [line], changes nothing:
    its pattern does not match the output, or its transform returns the
    output as it is. *)
Definition settles_on_own_output (line : string) (entry : string * Rule) : bool :=
  if search (pattern (snd entry)) line then
    match fix_ (snd entry) line with
    | Returned out =>
        negb (search (pattern (snd entry)) out)
        || match fix_ (snd entry) out with
           | Returned out' => String.eqb out' out
           | Raised _ => false
           end
    | Raised _ => false
    end
  else true.

(** The Go line [import Q fmt Q], Q the double quote. *)
Definition import_fmt : string :=
  "import " +:+ String DQ ("fmt" +:+ String DQ "").

(** The entries the walk keeps and can read. *)
Definition readable (e : DirEntry) : bool :=
  match read_text e with
  | inl _ => true
  | inr _ => false
  end.

(** The longest prefix of characters satisfying [p], and what follows. *)
Fixpoint take_while (p : ascii -> bool) (s : string) : string :=
  match s with
  | EmptyString => EmptyString
  | String a s' => if p a then String a (take_while p s') else EmptyString
  end.

Fixpoint skip_while (p : ascii -> bool) (s : string) : string :=
  match s with
  | EmptyString => EmptyString
  | String a s' => if p a then skip_while p s' else s
  end.

(** [s] is blanks, an opening brace, and blanks to the end. *)
Definition closes (s : string) : bool :=
  match skip_while is_space s with
  | String c s' => Ascii.eqb c "{" && String.eqb (skip_while is_space s') ""
  | EmptyString => false
  end.

(** [s] is a word followed by a closing part: the word, if so. *)
Definition brace_at (s : string) : option string :=
  match take_while is_word s with
  | EmptyString => None
  | w => if closes (skip_while is_word s) then Some w else None
  end.

(** A line with the blanks around its final opening brace normalised:
    from the first position where a word and a closing part start, the
    text becomes the word, one space and the brace. *)
Fixpoint respace (s : string) : string :=
  match brace_at s with
  | Some w => w +:+ " {"
  | None =>
      match s with
      | EmptyString => EmptyString
      | String a s' => String a (respace s')
      end
  end.


(** A directory [repo] holding a readable Python file, a JavaScript file
    that is not valid UTF-8, a file under a hidden directory, and a
    subdirectory; nothing else exists. *)
Definition sample_fs : FileSystem :=
  mkFileSystem
    (fun p => String.eqb p "repo")
    (fun p =>
       if String.eqb p "repo" then
         [ mkDirEntry "repo/a.py" true (inl "x = 1");
           mkDirEntry "repo/b.js" true (inr "invalid start byte");
           mkDirEntry "repo/.git/c.py" true (inl "");
           mkDirEntry "repo/docs" false (inr "Is a directory") ]
       else []).

Definition sample_clock (p : string) : Q * Q := (0, 1 # 100)%Q.


End Spec.

(* ===================================================================== *)
(** ** [ShellChampion.__init__] and [_detect_available_tools] *)
(* ===================================================================== *)

Module Detection.
Import Text ShellChampion.

(** What [subprocess.run(argv, capture_output=True, timeout=5, text=True)]
    does, as the method observes it: the process ends with a return code,
    the timeout expires, the program is not found, or another exception is
    raised, which the method does not catch. *)
Inductive Probe : Type :=
| Completed (returncode : Z)
| TimeoutExpired
| FileNotFoundError
| OtherException (message : string).

(** [s.split()] with no argument: the maximal runs of non-blank
    characters. *)
Fixpoint split_blanks (s : string) : list string :=
  match s with
  | EmptyString => []
  | String c s' =>
      if is_space c then split_blanks s'
      else
        match s' with
        | EmptyString => [String c EmptyString]
        | String d _ =>
            if is_space d then String c EmptyString :: split_blanks s'
            else
              match split_blanks s' with
              | w :: ws => String c w :: ws
              | [] => [String c EmptyString]
              end
        end
  end.

Definition test_commands : list (string * string) :=
  [ ("black", "black --version");
    ("autopep8", "autopep8 --version");
    ("isort", "isort --version") ].

(** The loop over [test_commands.items()], filling [tools]; [run] is the
    machine's answer to each probe. An exception other than the two the
    loop catches leaves the method, with its message. *)
Fixpoint probe_tools (run : list string -> Probe) (cmds : list (string * string))
  (tools : gmap string bool) : gmap string bool + string :=
  match cmds with
  | [] => inl tools
  | (tool, cmd) :: cmds' =>
      match run (split_blanks cmd) with
      | Completed returncode =>
          probe_tools run cmds' (<[tool := (returncode =? 0)%Z]> tools)
      | TimeoutExpired | FileNotFoundError =>
          probe_tools run cmds' (<[tool := false]> tools)
      | OtherException e => inr e
      end
  end.

Definition _detect_available_tools (run : list string -> Probe)
  : gmap string bool + string :=
  probe_tools run test_commands ∅.

(** [ShellChampion()]: the object, or the message of the exception that
    left [_detect_available_tools] or [tempfile.mkdtemp]; [mkdtemp] is
    that message when the temporary directory cannot be created. *)
Definition init (run : list string -> Probe) (mkdtemp : option string)
  (write_temp : string -> string -> option string)
  (communicate : string -> string -> string -> ToolRun) : Shell + string :=
  match _detect_available_tools run with
  | inl tools =>
      match mkdtemp with
      | None => inl (mkShell tools write_temp communicate)
      | Some e => inr e
      end
  | inr e => inr e
  end.

End Detection.

(* ===================================================================== *)
(** ** [get_summary_report] and [_get_top_issues] *)
(* ===================================================================== *)

Module Report.
Import Text AutoSyntaxFixerILN3.

(** The exceptions the arithmetic and the indexing of the two methods can
    raise. *)
Inductive exception : Type :=
| ZeroDivisionError
| IndexError.

(** A computation that returns a value or raises. *)
Definition raises (A : Type) : Type := (A + exception)%type.

Definition ret {A : Type} (a : A) : raises A := inl a.

Definition raise {A : Type} (e : exception) : raises A := inr e.

Definition bind {A B : Type} (m : raises A) (k : A -> raises B) : raises B :=
  match m with
  | inl a => k a
  | inr e => inr e
  end.

Notation "'let*' x ':=' m 'in' k" := (bind m (fun x => k))
  (at level 10, x name, m at level 100, k at level 200).

(** [x / y] on numbers. *)
Definition truediv (x y : Q) : raises Q :=
  if Qeq_bool y 0 then raise ZeroDivisionError else ret (x / y)%Q.

(** [sum(...)] over natural numbers and over times, from the left. *)
Definition sum (l : list nat) : nat := fold_left Nat.add l 0%nat.

Definition sum_seconds (l : list Q) : Q := fold_left Qplus l 0%Q.

(** [0 < x]. *)
Definition positive (x : Q) : bool := negb (Qle_bool x 0).

(** One value of the dict [language_stats]. *)
Record LanguageStats : Type := mkLanguageStats {
  files : nat;
  errors : nat;
  fixes : nat;
  language_success_rate : Q
}.

(** [key in d] for a dict kept in insertion order. *)
Definition has_key {V : Type} (key : string) (d : list (string * V)) : bool :=
  existsb (fun kv => String.eqb (fst kv) key) d.

(** [d[key] = f(d[key])] for a key of [d]. *)
Definition adjust {V : Type} (key : string) (f : V -> V) (d : list (string * V))
  : list (string * V) :=
  List.map (fun kv => if String.eqb (fst kv) key then (fst kv, f (snd kv)) else kv) d.

(** The body of the first loop over [results]. *)
Definition record_result (language_stats : list (string * LanguageStats))
  (result : FixResult) : list (string * LanguageStats) :=
  let lang := language result in
  let language_stats :=
    if has_key lang language_stats then language_stats
    else language_stats ++ [(lang, mkLanguageStats 0 0 0 0)] in
  adjust lang
    (fun stats =>
       mkLanguageStats (files stats + 1)
         (errors stats + List.length (original_errors result))
         (fixes stats + List.length (fixes_applied result))
         (language_success_rate stats))
    language_stats.

(** [sum(1 for r in results if r.language == lang and r.success)]. *)
Definition successful_for (lang : string) (results : list FixResult) : nat :=
  List.length
    (List.filter (fun r => String.eqb (language r) lang && success r) results).

(** The body of the second loop, over [language_stats.items()]. *)
Definition rate_language (results : list FixResult) (item : string * LanguageStats)
  : raises (string * LanguageStats) :=
  let '(lang, stats) := item in
  if (0 <? files stats)%nat then
    let* share :=
      truediv (Q_of_nat (successful_for lang results)) (Q_of_nat (files stats)) in
    ret (lang, mkLanguageStats (files stats) (errors stats) (fixes stats)
                 (share * 100)%Q)
  else ret item.

Fixpoint for_each {A B : Type} (f : A -> raises B) (l : list A) : raises (list B) :=
  match l with
  | [] => ret []
  | a :: l' =>
      let* b := f a in
      let* bs := for_each f l' in
      ret (b :: bs)
  end.

(** The issue type of one entry: the text between its first and second
    colon, stripped, or the entry itself when it has no colon. *)
Definition issue_type (error : string) : raises string :=
  if Spec.has_char ":" error then
    match split ":" error !! 1%nat with
    | Some part => ret (strip part)
    | None => raise IndexError
    end
  else ret error.

(** [issue_counts[key] = issue_counts.get(key, 0) + 1]. *)
Fixpoint increment (key : string) (issue_counts : list (string * nat))
  : list (string * nat) :=
  match issue_counts with
  | [] => [(key, 1%nat)]
  | (k, n) :: d =>
      if String.eqb k key then (k, (n + 1)%nat) :: d else (k, n) :: increment key d
  end.

(** The loop over the entries of one result, inside the loop over the
    results. *)
Fixpoint count_errors (errors : list string) (issue_counts : list (string * nat))
  : raises (list (string * nat)) :=
  match errors with
  | [] => ret issue_counts
  | error :: errors' =>
      let* key := issue_type error in
      count_errors errors' (increment key issue_counts)
  end.

Fixpoint count_results (results : list FixResult) (issue_counts : list (string * nat))
  : raises (list (string * nat)) :=
  match results with
  | [] => ret issue_counts
  | r :: results' =>
      let* issue_counts := count_errors (original_errors r) issue_counts in
      count_results results' issue_counts
  end.

(** [sorted(l, key=key, reverse=True)]: the largest key first, elements
    of equal key in the order of [l]. *)
Fixpoint insert_reverse {A : Type} (key : A -> nat) (x : A) (l : list A) : list A :=
  match l with
  | [] => [x]
  | y :: l' =>
      if (key y <=? key x)%nat then x :: y :: l' else y :: insert_reverse key x l'
  end.

Definition sorted_reverse {A : Type} (key : A -> nat) (l : list A) : list A :=
  fold_right (insert_reverse key) [] l.

(** One element of the list [_get_top_issues] returns. *)
Record Issue : Type := mkIssue {
  issue : string;
  count : nat
}.

(** [_get_top_issues(results)]. *)
Definition _get_top_issues (results : list FixResult) : raises (list Issue) :=
  let* issue_counts := count_results results [] in
  let top_issues := firstn 10 (sorted_reverse snd issue_counts) in
  ret (List.map (fun item => mkIssue (fst item) (snd item)) top_issues).

Record Summary : Type := mkSummary {
  total_files : nat;
  successful_files : nat;
  success_rate : Q;
  total_errors_found : nat;
  total_fixes_applied : nat;
  avg_processing_time : Q;
  efficiency_ratio : Q
}.

Record Performance : Type := mkPerformance {
  files_per_second : Q;
  fixes_per_second : Q
}.

(** The dict [get_summary_report] returns: a message alone, or the four
    sections. *)
Inductive SummaryReport : Type :=
| Message (message : string)
| Sections (summary : Summary) (by_language : list (string * LanguageStats))
    (top_issues : list Issue) (performance_metrics : Performance).

(** [n / seconds if seconds > 0 else 0]. *)
Definition per_second (n : nat) (seconds : Q) : raises Q :=
  if positive seconds then truediv (Q_of_nat n) seconds else ret 0%Q.

(** [get_summary_report(results)]. *)
Definition get_summary_report (results : list FixResult) : raises SummaryReport :=
  match results with
  | [] => ret (Message "No results to analyze")
  | _ =>
      let total_files := List.length results in
      let successful_files := List.length (List.filter success results) in
      let total_errors :=
        sum (List.map (fun r => List.length (original_errors r)) results) in
      let total_fixes :=
        sum (List.map (fun r => List.length (fixes_applied r)) results) in
      let seconds := sum_seconds (List.map processing_time results) in
      let* avg_time := truediv seconds (Q_of_nat total_files) in
      let language_stats := fold_left record_result results [] in
      let* language_stats := for_each (rate_language results) language_stats in
      let* share := truediv (Q_of_nat successful_files) (Q_of_nat total_files) in
      let* ratio :=
        truediv (Q_of_nat total_fixes) (Q_of_nat (Nat.max total_errors 1)) in
      let* top := _get_top_issues results in
      let* files_rate := per_second total_files seconds in
      let* fixes_rate := per_second total_fixes seconds in
      ret (Sections
             (mkSummary total_files successful_files (share * 100)%Q total_errors
                total_fixes avg_time ratio)
             language_stats top
             (mkPerformance files_rate fixes_rate))
  end.

End Report.

(* ===================================================================== *)
(** ** Further notions used to state the properties *)
(* ===================================================================== *)

Module Notions.
Import Text Regex SyntaxAnalyzer ShellChampion AutoSyntaxFixerILN3 Spec.

(** The tags of the languages with an entry in [tool_mapping]. *)
Definition language_tags : list string :=
  ["python"; "javascript"; "typescript"; "go"; "rust"; "java"; "cpp"; "c"].

(** The three formatters of the Python entry of [tool_mapping]. *)
Definition python_tools : list string := ["black"; "autopep8"; "isort"].

(** A machine on which the three formatters are installed and exit with
    code 0, leaving the file as it was written. *)
Definition formatting_shell : Shell :=
  mkShell (<["black" := true]> (<["autopep8" := true]> (<["isort" := true]> ∅)))
    (fun _ _ => None) (fun _ _ content => Exited 0 "" (Some content)).

(** Two runs of a tool that differ at most in the text left in the
    temporary file. *)
Definition same_outcome (a b : ToolRun) : Prop :=
  match a, b with
  | TimedOut, TimedOut => True
  | Crashed e1, Crashed e2 => e1 = e2
  | Exited rc1 err1 f1, Exited rc2 err2 f2 =>
      rc1 = rc2 /\ err1 = err2 /\ (f1 = None <-> f2 = None)
  | _, _ => False
  end.

(** A machine like [formatting_shell] whose formatters rewrite the file. *)
Definition rewriting_shell : Shell :=
  mkShell (available_tools formatting_shell) (fun _ _ => None)
    (fun _ _ _ => Exited 0 "" (Some "formatted")).

(** The results the preparation loop appends at once: one failure for
    each file that cannot be read, in the order of the files. *)
Definition unread_results (files : list DirEntry) : list FixResult :=
  flat_map (fun f =>
              match read_text f with
              | inl _ => []
              | inr e => [failure (entry_path f) ("Cannot read file: " +:+ e)]
              end) files.

(** A project given by a path through its parent directory: the walk
    yields one Python file. *)
Definition parent_fs : FileSystem :=
  mkFileSystem
    (fun p => String.eqb p "../project")
    (fun p =>
       if String.eqb p "../project"
       then [mkDirEntry "../project/a.py" true (inl "x = 1")]
       else []).

(** A machine on which only black answers its version probe. *)
Definition only_black (argv : list string) : Detection.Probe :=
  if String.eqb (List.hd "" argv) "black" then Detection.Completed 0
  else Detection.FileNotFoundError.

(** The issue type of an entry as [_get_top_issues] reads it. *)
Definition issue_key (error : string) : string :=
  if has_char ":" error then strip (nth 1 (split ":" error) "") else error.

(** The issue types of all the issues of all the results, in order. *)
Definition issue_keys (results : list FixResult) : list string :=
  List.map issue_key (flat_map original_errors results).

(** How many elements of [keys] are [key], and how many issues of the
    results have the issue type [key]. *)
Definition times (key : string) (keys : list string) : nat :=
  List.length (List.filter (String.eqb key) keys).

Definition occurrences (key : string) (results : list FixResult) : nat :=
  times key (issue_keys results).

(** The dict [issue_counts] after counting the issue types [keys]. *)
Definition tally (keys : list string) : list (string * nat) :=
  fold_left (fun issue_counts key => Report.increment key issue_counts) keys [].

(** A list of counts in which no count is followed by a larger one. *)
Fixpoint descending (l : list nat) : Prop :=
  match l with
  | [] => True
  | n :: l' => Forall (fun m => (m <= n)%nat) l' /\ descending l'
  end.

(** The distinct elements of a list, in the order of their first
    occurrence. *)
Definition distinct (l : list string) : list string :=
  fold_left (fun seen x => if mem x seen then seen else seen ++ [x]) l [].

(** The results of one language, and sums over results. *)
Definition of_language (lang : string) (results : list FixResult) : list FixResult :=
  List.filter (fun r => String.eqb (language r) lang) results.

Definition issues_of (results : list FixResult) : nat :=
  list_sum (List.map (fun r => List.length (original_errors r)) results).

Definition fixes_of (results : list FixResult) : nat :=
  list_sum (List.map (fun r => List.length (fixes_applied r)) results).

(** The entry of [by_language] for a language: the counts over its
    results, and the share of its successful results in percent. *)
Definition language_entry (results : list FixResult) (lang : string)
  : string * Report.LanguageStats :=
  let own := of_language lang results in
  (lang,
   Report.mkLanguageStats (List.length own) (issues_of own) (fixes_of own)
     (Q_of_nat (Report.successful_for lang results) / Q_of_nat (List.length own)
      * 100)%Q).

(** The entry of a language after the first loop of [get_summary_report]:
    the counts are final, the success rate is still 0. *)
Definition counted (results : list FixResult) (lang : string)
  : string * Report.LanguageStats :=
  (lang,
   Report.mkLanguageStats (List.length (of_language lang results))
     (issues_of (of_language lang results)) (fixes_of (of_language lang results)) 0).

(** Case analysis on the comparisons of a character variable with
    constants. *)
Ltac split_eqb :=
  repeat match goal with
         | |- context [Ascii.eqb ?a ?c] =>
             is_var a; destruct (Ascii.eqb_spec a c); [subst a |]; cbn
         end.

(** The verdict of one version probe, for each way the probe can end. *)
Ltac probe_verdict run :=
  match goal with
  | |- context [run (Detection.split_blanks ?c)] =>
      let v := eval vm_compute in (Detection.split_blanks c) in
      change (Detection.split_blanks c) with v
  end;
  match goal with
  | |- context [run ?argv] => destruct (run argv) as [rc | | | msg]
  end;
  simpl;
  try (split; [discriminate | intros [_ X]; discriminate]);
  (split;
   [ intros X; apply Z.eqb_eq in X; subst; split; [tauto | reflexivity]
   | intros [_ X]; injection X as ->; reflexivity ]).

End Notions.

(* ===================================================================== *)
(** * Properties *)
(* ===================================================================== *)

Import Text Regex SyntaxAnalyzer ShellChampion AutoSyntaxFixerILN3 Spec.

(** ** The single-file operation *)

Lemma fix_file_content_unknown self t0 t1 path content :
  detected path content = "unknown" ->
  fix_file_content self t0 t1 path content =
  (mkFixResult path ["Unknown file type"] [] false "unknown" (t1 - t0)%Q
     "ILN_Auto_Syntax_Fixer", self).
Proof.
  intros H. unfold fix_file_content. unfold detected in H. rewrite H.
  reflexivity.
Qed.

(** The equation of the main path, with the two calls it makes named. *)
Lemma fix_file_content_known self t0 t1 path content :
  detected path content <> "unknown" ->
  let lang := detected path content in
  let a := analyze_syntax_errors (pattern_cache self) content lang in
  let t := try_tools (shell_champion self) path
             (default [] (LanguageDetector.lookup lang tool_mapping))
             (snd (fst a)) [] in
  let half := (length (fst (fst a)) / 2)%nat in
  let all_errors := firstn half (fst (fst a)) ++ snd t in
  let all_fixes :=
    skipn half (fst (fst a)) ++
    (if fst (fst t) then ["Applied external tool formatting"] else []) in
  fix_file_content self t0 t1 path content =
  (mkFixResult path all_errors all_fixes
     ((0 <? length all_fixes)%nat || (length all_errors =? 0)%nat)
     lang (t1 - t0)%Q
     ("ILN_Level3_" +:+ (if fst (fst t) then "with_shell" else "internal")),
   mkFixer (shell_champion self) (snd a)
     (update_stats (stats self) (length all_fixes) (t1 - t0)%Q)).
Proof.
  intros H. unfold fix_file_content, detected in *.
  apply String.eqb_neq in H. rewrite H. cbv zeta.
  destruct (analyze_syntax_errors _ _ _) as [[ar cc] cache]. cbn [fst snd].
  destruct (try_tools _ _ _ _ _) as [[ok fc] errs]. reflexivity.
Qed.

(** C9. When the language of the input is classified as unknown,
    [fix_file_content] returns a result with [success = false], the single
    issue "Unknown file type" and no fix; the object is left as it was. *)
Theorem fix_file_content_unknown_language self t0 t1 path content :
  detected path content = "unknown" ->
  let r := fst (fix_file_content self t0 t1 path content) in
  success r = false /\
  original_errors r = ["Unknown file type"] /\
  fixes_applied r = [] /\
  language r = "unknown".
Proof.
  intros H. rewrite (fix_file_content_unknown _ _ _ _ _ H). cbn. auto.
Qed.

(** A text file with no recognisable content is of unknown type. *)
Lemma fix_file_content_unknown_language_witness :
  let r := fst (fix_file_content (init bare_shell) 0 1 "notes.txt" "hello") in
  success r = false /\
  original_errors r = ["Unknown file type"] /\
  fixes_applied r = [] /\
  language r = "unknown".
Proof.
  apply (fix_file_content_unknown_language (init bare_shell) 0 1 "notes.txt" "hello").
  vm_compute. reflexivity.
Defined.


(** ** The running statistics *)

Lemma Q_of_nat_succ n : (Q_of_nat (n + 1) == Q_of_nat n + 1)%Q.
Proof.
  unfold Q_of_nat. rewrite Nat2Z.inj_add, inject_Z_plus. reflexivity.
Qed.


(** The incremental mean: whatever the count, the new average is
    [(old_avg * (n - 1) + sample) / n] for the new count [n]. *)
Lemma update_stats_avg st fixes seconds :
  (avg_processing_time (update_stats st fixes seconds) ==
   (avg_processing_time st * Q_of_nat (files_processed st + 1 - 1)
    + seconds * 1000) / Q_of_nat (files_processed st + 1))%Q.
Proof.
  unfold update_stats. cbn [avg_processing_time].
  destruct (Nat.eqb_spec (files_processed st + 1) 1) as [E | E]; [| reflexivity].
  rewrite E. change (Q_of_nat (1 - 1)) with 0%Q. change (Q_of_nat 1) with 1%Q.
  field.
Qed.


(** C3 (amended). [fix_file_content] updates the statistics exactly when
    the language is known: [files_processed] grows by one, [total_fixes]
    by the number of entries of [fixes_applied], the success rate is
    recomputed as fixes per file times 100 and the average by the
    incremental mean; for a file of unknown type the statistics are left
    as they were. *)
Theorem fix_file_content_statistics self t0 t1 path content :
  let r := fst (fix_file_content self t0 t1 path content) in
  let before := stats self in
  let after := stats (snd (fix_file_content self t0 t1 path content)) in
  if String.eqb (language r) "unknown" then after = before
  else
    files_processed after = (files_processed before + 1)%nat /\
    total_fixes after = (total_fixes before + length (fixes_applied r))%nat /\
    (success_rate after ==
     Q_of_nat (total_fixes after) / Q_of_nat (files_processed after) * 100)%Q /\
    (avg_processing_time after ==
     (avg_processing_time before * Q_of_nat (files_processed after - 1)
      + processing_time r * 1000) / Q_of_nat (files_processed after))%Q.
Proof.
  destruct (String.eqb_spec (detected path content) "unknown") as [H | H].
  - rewrite (fix_file_content_unknown _ _ _ _ _ H). reflexivity.
  - rewrite (fix_file_content_known _ _ _ _ _ H).
    cbn [fst snd language stats fixes_applied processing_time].
    apply String.eqb_neq in H. rewrite H.
    split; [reflexivity |]. split; [reflexivity |]. split.
    + unfold update_stats. cbn [success_rate total_fixes files_processed].
      replace (0 <? files_processed (stats self) + 1)%nat with true
        by (symmetry; apply Nat.ltb_lt; lia).
      reflexivity.
    + apply update_stats_avg.
Qed.

(** C3 (as stated) fails: after a file of unknown type has been processed
    on a fresh object, no file is counted as processed. *)
Lemma unknown_file_not_counted :
  files_processed
    (stats (snd (fix_file_content (init bare_shell) 0 1 "notes.txt" "hello")))
  = 0%nat.
Proof. vm_compute. reflexivity. Qed.





(** ** The batch operation *)

Lemma fix_file_content_path self t0 t1 path content :
  file_path (fst (fix_file_content self t0 t1 path content)) = path.
Proof.
  destruct (String.eqb_spec (detected path content) "unknown") as [H | H].
  - now rewrite (fix_file_content_unknown _ _ _ _ _ H).
  - now rewrite (fix_file_content_known _ _ _ _ _ H).
Qed.



(** The results of the preparation loop followed by those of the tasks
    carry the paths of the files, each once. *)
Lemma prepare_gather_paths clock files : forall self,
  Permutation
    (List.map file_path
       (fst (prepare clock files)
        ++ collect (fst (gather (snd (prepare clock files)) self))))
    (List.map entry_path files).
Proof.
  induction files as [| f files IH]; intros self.
  - cbn. constructor.
  - cbn [prepare]. destruct (prepare clock files) as [results tasks] eqn:E.
    cbn [fst snd] in IH.
    destruct (read_text f) as [content | e]; cbn [fst snd].
    + cbn [gather].
      destruct (fix_file_content self _ _ (entry_path f) content) as [r self'] eqn:F.
      specialize (IH self').
      destruct (gather tasks self') as [rs self''].
      cbn [fst collect List.map] in *.
      rewrite List.map_app in *. cbn [List.map].
      pose proof (fix_file_content_path self (fst (clock (entry_path f)))
                    (snd (clock (entry_path f))) (entry_path f) content) as P.
      rewrite F in P. cbn [fst] in P. rewrite P.
      apply Permutation_sym, Permutation_cons_app, Permutation_sym, IH.
    + specialize (IH self). cbn [List.map app]. now constructor.
Qed.

Lemma fix_repository_results self fs clock repo_path :
  path_exists fs (Paths.str repo_path) = true ->
  discover fs repo_path <> [] ->
  fst (fix_repository self fs clock repo_path) =
  fst (prepare clock (discover fs repo_path))
  ++ collect (fst (gather (snd (prepare clock (discover fs repo_path))) self)).
Proof.
  intros He Hd. unfold fix_repository. rewrite He. cbn [negb].
  destruct (discover fs repo_path) as [| f files] eqn:D; [now elim Hd |].
  destruct (prepare clock (f :: files)) as [results tasks].
  destruct tasks as [| t tasks].
  - cbn. now rewrite app_nil_r.
  - cbn [fst snd]. destruct (gather (t :: tasks) self) as [completed self'].
    reflexivity.
Qed.





(** ** The language classifier *)

Lemma split_nonempty sep s : split sep s <> [].
Proof.
  destruct s as [| c s]; cbn; [discriminate |].
  destruct (Ascii.eqb c sep); [discriminate |].
  destruct (split sep s); discriminate.
Qed.

Lemma split_no_sep sep s : has_char sep s = false -> split sep s = [s].
Proof.
  induction s as [| c s IH]; cbn; [reflexivity |].
  intros H. apply orb_false_elim in H as [Hc Hs].
  rewrite Hc, (IH Hs). reflexivity.
Qed.

Lemma split_app_sep sep a b :
  split sep (a +:+ String sep b) = split sep a ++ split sep b.
Proof.
  induction a as [| c a IH]; cbn [String.append split].
  - now rewrite Ascii.eqb_refl.
  - destruct (Ascii.eqb c sep); rewrite IH; [reflexivity |].
    pose proof (split_nonempty sep a) as N.
    destruct (split sep a); [now elim N | reflexivity].
Qed.

(** The final component of a path built from directories and a file name
    is the file name. *)
Lemma name_of_join dirs f :
  has_char Paths.SLASH f = false -> f <> "" -> f <> "." ->
  Paths.name (join "/" (dirs ++ [f])) = f.
Proof.
  intros Hs He Hd. unfold Paths.name, Paths.components.
  assert (E : exists l, split Paths.SLASH (join "/" (dirs ++ [f])) = l ++ [f]).
  { unfold join. induction dirs as [| d dirs IH].
    - exists []. cbn. now apply split_no_sep.
    - destruct IH as [l IH]. cbn [app String.concat].
      destruct (dirs ++ [f]) as [| x xs] eqn:X.
      + now destruct dirs.
      + exists (split Paths.SLASH d ++ l).
        change (d +:+ "/" +:+ String.concat "/" (x :: xs))
          with (d +:+ String Paths.SLASH (String.concat "/" (x :: xs))).
        rewrite split_app_sep, IH. now rewrite <- app_assoc. }
  destruct E as [l ->]. rewrite List.filter_app. cbn [List.filter].
  apply String.eqb_neq in He, Hd. rewrite He, Hd. cbn [negb andb].
  apply last_last.
Qed.

Lemma rfind_none c s : has_char c s = false -> rfind c s = None.
Proof.
  induction s as [| a s IH]; cbn; [reflexivity |].
  intros H. apply orb_false_elim in H as [Ha Hs]. now rewrite (IH Hs), Ha.
Qed.

Lemma rfind_last_dot stem rest :
  has_char Paths.DOT rest = false ->
  rfind Paths.DOT (stem +:+ String Paths.DOT rest) = Some (String.length stem).
Proof.
  intros H. induction stem as [| a stem IH]; cbn.
  - now rewrite (rfind_none _ _ H).
  - cbn in IH. now rewrite IH.
Qed.

Lemma drop_app s t : drop (String.length s) (s +:+ t) = t.
Proof. induction s; cbn; auto. Qed.

Lemma length_append s t :
  String.length (s +:+ t) = (String.length s + String.length t)%nat.
Proof. induction s; cbn; auto. Qed.

Lemma has_char_append c s t :
  has_char c (s +:+ t) = has_char c s || has_char c t.
Proof. induction s as [| a s IH]; cbn; [reflexivity |]. now rewrite IH, orb_assoc. Qed.

(** The suffix of [stem ++ "." ++ rest] is ["." ++ rest]. *)
Lemma suffix_of_join dirs stem rest :
  stem <> "" -> has_char Paths.SLASH stem = false ->
  rest <> "" -> has_char Paths.SLASH rest = false ->
  has_char Paths.DOT rest = false ->
  Paths.suffix (join "/" (dirs ++ [stem +:+ String Paths.DOT rest]))
  = String Paths.DOT rest.
Proof.
  intros Hstem Hslash Hrest Hslash' Hdot. unfold Paths.suffix.
  rewrite name_of_join.
  - rewrite (rfind_last_dot _ _ Hdot), length_append. cbn [String.length].
    assert (L1 : (0 < String.length stem)%nat)
      by (destruct stem; [now elim Hstem | cbn; lia]).
    assert (L2 : (0 < String.length rest)%nat)
      by (destruct rest; [now elim Hrest | cbn; lia]).
    replace (0 <? String.length stem)%nat with true
      by (symmetry; apply Nat.ltb_lt; lia).
    replace (String.length stem <? String.length stem
               + S (String.length rest) - 1)%nat with true
      by (symmetry; apply Nat.ltb_lt; lia).
    cbn [andb]. apply drop_app.
  - rewrite has_char_append. cbn [has_char]. now rewrite Hslash, Hslash'.
  - destruct stem; [now elim Hstem | discriminate].
  - destruct stem as [| a [| b stem]]; [now elim Hstem | |]; cbn.
    + destruct rest; [now elim Hrest | discriminate].
    + discriminate.
Qed.

(** C8. For a file name [stem ++ ext] whose extension [ext] is a key of
    the extension table, under any directories, [detect_language] returns
    the language the table maps [ext] to, whatever the content. *)
Theorem detect_language_extension_wins dirs stem ext lang content :
  In (ext, lang) LanguageDetector.extension_map ->
  stem <> "" ->
  has_char Paths.SLASH stem = false ->
  LanguageDetector.detect_language (join "/" (dirs ++ [stem +:+ ext])) content
  = lang.
Proof.
  intros Hin Hstem Hslash. unfold LanguageDetector.detect_language.
  assert (E : exists rest,
             ext = String Paths.DOT rest /\ rest <> "" /\
             has_char Paths.SLASH rest = false /\
             has_char Paths.DOT rest = false /\
             LanguageDetector.lookup (lower ext) LanguageDetector.extension_map
             = Some lang).
  { cbn in Hin.
    repeat (destruct Hin as [Hin | Hin];
            [ injection Hin as <- <-; eexists; split; [reflexivity |];
              repeat split; try discriminate; reflexivity | ]).
    contradiction. }
  destruct E as (rest & -> & Hrest & Hs & Hd & Hl).
  rewrite (suffix_of_join dirs stem rest Hstem Hslash Hrest Hs Hd), Hl.
  reflexivity.
Qed.

(** A Go file name wins over content that looks like Python. *)
Lemma detect_language_extension_wins_witness :
  LanguageDetector.detect_language
    (join "/" (["src"; "pkg"] ++ ["main" +:+ ".go"]))
    (Some "def f():
class A:")
  = "go".
Proof.
  apply (detect_language_extension_wins ["src"; "pkg"] "main" ".go" "go").
  - cbn. tauto.
  - discriminate.
  - reflexivity.
Defined.

(** ** The rule engine, line by line *)

Lemma last_cons_default (x : string) l d : List.last (x :: l) d = List.last l x.
Proof.
  revert x d. induction l as [| y l IH]; intros x d; [reflexivity |].
  change (List.last (x :: y :: l) d) with (List.last (y :: l) d).
  now rewrite (IH y d), (IH y x).
Qed.

(** The inner loop on one line: the stored line ends as the last output
    that differs from the line read, the log grows by the line's entries. *)
Lemma fold_apply_rule i line patterns : forall st cur,
  lines st !! i = Some cur ->
  fold_left (apply_rule i line) patterns st =
  mkLocals (<[i := List.last (changed patterns line) cur]> (lines st))
           (errors_found st ++ line_issues patterns i line)
           (SyntaxAnalyzer.fixes_applied st ++ line_fixes patterns i line).
Proof.
  induction patterns as [| [fix_name r] patterns IH]; intros st cur Hcur.
  - cbn. rewrite (list_insert_id _ _ _ Hcur), !app_nil_r. now destruct st.
  - cbn [fold_left changed line_issues line_fixes]. unfold apply_rule at 2.
    destruct (search (pattern r) line).
    + destruct (fix_ r line) as [fixed_line | e].
      * destruct (String.eqb fixed_line line).
        -- rewrite (IH _ cur); cbn [lines errors_found SyntaxAnalyzer.fixes_applied]; [| exact Hcur].
           now rewrite <- app_assoc.
        -- rewrite (IH _ fixed_line); cbn [lines errors_found SyntaxAnalyzer.fixes_applied].
           ++ rewrite list_insert_insert_eq, last_cons_default, <- !app_assoc.
              reflexivity.
           ++ apply list_lookup_insert_eq. now apply lookup_lt_Some in Hcur.
      * rewrite (IH _ cur); cbn [lines errors_found SyntaxAnalyzer.fixes_applied]; [| exact Hcur].
        now rewrite <- !app_assoc.
    + now apply IH.
Qed.

(** The outer loop from index [i]: the lines before [i] are kept, each
    later line is replaced by its final text. *)
Lemma scan_lines_spec patterns : forall count i st,
  (i + count)%nat = length (lines st) ->
  scan_lines patterns count i st =
  mkLocals
    (firstn i (lines st)
     ++ List.map (fun line => List.last (changed patterns line) line)
          (skipn i (lines st)))
    (errors_found st ++ per_line (line_issues patterns) i (skipn i (lines st)))
    (SyntaxAnalyzer.fixes_applied st ++ per_line (line_fixes patterns) i (skipn i (lines st))).
Proof.
  induction count as [| count IH]; intros i st Hlen.
  - cbn [scan_lines]. rewrite skipn_all2 by lia. rewrite firstn_all2 by lia.
    cbn. rewrite !app_nil_r. now destruct st.
  - cbn [scan_lines].
    destruct (lines st !! i) as [line |] eqn:Hi.
    2:{ apply lookup_ge_None in Hi. lia. }
    rewrite (fold_apply_rule _ _ _ _ _ Hi).
    rewrite IH; cbn [lines errors_found SyntaxAnalyzer.fixes_applied].
    2:{ rewrite length_insert. lia. }
    assert (Hlt : (i < length (lines st))%nat) by lia.
    rewrite (drop_S _ _ _ Hi).
    rewrite drop_insert_lt by lia.
    rewrite take_insert_lt by lia.
    rewrite (take_S_r _ _ _ Hi).
    rewrite insert_app_r_alt by (rewrite length_take; lia).
    rewrite length_take.
    replace (i - i `min` length (lines st))%nat with 0%nat by lia.
    cbn [List.map per_line]. rewrite <- !app_assoc. reflexivity.
Qed.

(** What [analyze] computes, line by line. *)
Lemma analyze_unfold patterns content :
  analyze patterns content =
  (per_line (line_issues patterns) 0 (split LF content)
   ++ per_line (line_fixes patterns) 0 (split LF content),
   join (String LF "")
     (List.map (fun line => List.last (changed patterns line) line)
        (split LF content))).
Proof.
  unfold analyze. cbv zeta. rewrite scan_lines_spec by reflexivity.
  reflexivity.
Qed.

(** Every output that differs from the line has its fix entry. *)
Lemma changed_logged patterns i line :
  (length (changed patterns line) <= length (line_fixes patterns i line))%nat.
Proof.
  induction patterns as [| [fix_name r] patterns IH]; cbn [changed line_fixes];
    [reflexivity |].
  destruct (search (pattern r) line); [| exact IH].
  destruct (fix_ r line) as [fixed_line | e].
  - destruct (String.eqb fixed_line line); cbn [length]; lia.
  - cbn [length]. lia.
Qed.

(** C10 (amended). For every rule set and content, each line of the
    output is computed from the line as originally read alone: it is the
    output of the last rule, in rule order, whose pattern matches the
    original line and whose transform of the original line differs from
    it, and the original line when there is no such rule. The log holds
    one issue entry per matching rule and one fix entry per rule whose
    transform changed (or failed on) the original line, also for the
    rules whose output was overwritten by a later one. *)
Theorem analyze_line_by_line patterns content :
  let original := split LF content in
  analyze patterns content =
  (per_line (line_issues patterns) 0 original
   ++ per_line (line_fixes patterns) 0 original,
   join (String LF "")
     (List.map (fun line => List.last (changed patterns line) line) original))
  /\
  forall i line,
    (length (changed patterns line) <= length (line_fixes patterns i line))%nat.
Proof.
  split; [apply analyze_unfold | apply changed_logged].
Qed.

(** C10 (as stated) fails: on the Python line [    if x] the rules
    missing_colon and indentation match, in this order; the transform of
    the last matching rule, indentation, returns the line as it is, and
    the output line is the one missing_colon produced. *)
Lemma last_matching_rule_not_final :
  let line := "    if x" in
  search (pattern missing_colon) line = true /\
  search (pattern print_parentheses) line = false /\
  search (pattern indentation) line = true /\
  fix_ indentation line = Returned line /\
  fst (analyze_syntax_errors ∅ line "python") =
  (["Line 1: Missing colon"; "Line 1: Indentation error";
    "Fixed missing_colon on line 1"],
   "    if x:").
Proof. vm_compute. repeat split. Qed.

(** ** The rule engine and its cache *)

Lemma cache_sound_empty : cache_sound ∅.
Proof.
  intros language content patterns r _ H. rewrite lookup_empty in H.
  discriminate.
Qed.

(** On a sound cache the engine returns what it would compute. *)
Lemma analyze_syntax_errors_sound cache content language patterns :
  cache_sound cache ->
  LanguageDetector.lookup language fix_patterns = Some patterns ->
  fst (analyze_syntax_errors cache content language) = analyze patterns content.
Proof.
  intros Hs Hl. unfold analyze_syntax_errors. rewrite Hl.
  destruct (cache !! cache_key language content) as [cached |] eqn:E.
  - cbn. exact (Hs _ _ _ _ Hl E).
  - reflexivity.
Qed.

(** C2 (amended). For the single Python line [if x > 0] the engine logs
    exactly two issues, "Line 1: Missing colon" and "Line 1: Indentation
    error", followed by exactly two fixes, "Fixed missing_colon on line 1"
    and "Fixed indentation on line 1". *)
Theorem missing_colon_example cache :
  cache_sound cache ->
  fst (fst (analyze_syntax_errors cache "if x > 0" "python")) =
  [ "Line 1: Missing colon"; "Line 1: Indentation error";
    "Fixed missing_colon on line 1"; "Fixed indentation on line 1" ].
Proof.
  intros Hs.
  rewrite (analyze_syntax_errors_sound cache "if x > 0" "python" _ Hs eq_refl).
  vm_compute. reflexivity.
Qed.

(** On a fresh analyzer. *)
Lemma missing_colon_example_fresh :
  fst (fst (analyze_syntax_errors ∅ "if x > 0" "python")) =
  [ "Line 1: Missing colon"; "Line 1: Indentation error";
    "Fixed missing_colon on line 1"; "Fixed indentation on line 1" ].
Proof.
  apply (missing_colon_example ∅). apply cache_sound_empty.
Defined.

(** C2 (as stated) fails: the engine reports two issues and two fixes,
    and the corrected line is the re-indented original, without a colon. *)
Lemma missing_colon_example_result :
  fst (analyze_syntax_errors ∅ "if x > 0" "python") =
  ([ "Line 1: Missing colon"; "Line 1: Indentation error";
     "Fixed missing_colon on line 1"; "Fixed indentation on line 1" ],
   "    if x > 0").
Proof. vm_compute. reflexivity. Qed.

(** JavaScript needs a second run: on the line [var x = 5], and on the
    line [const x = 5] the first run returns for it, no rule even matches
    its own output; yet a second run on the returned text applies one more
    fix, the semicolon that var_to_const overwrote in the first run. *)
Example javascript_two_runs :
  let first := analyze_syntax_errors ∅ "var x = 5" "javascript" in
  let second := analyze_syntax_errors (snd first) (snd (fst first)) "javascript" in
  forallb (quiet_on_own_output "var x = 5") (rules_of "javascript") = true /\
  forallb (quiet_on_own_output "const x = 5") (rules_of "javascript") = true /\
  fst first =
  ([ "Line 1: Missing semicolon"; "Line 1: Use const instead of var";
     "Fixed missing_semicolon on line 1"; "Fixed var_to_const on line 1" ],
   "const x = 5") /\
  fst second =
  ([ "Line 1: Missing semicolon"; "Fixed missing_semicolon on line 1" ],
   "const x = 5;").
Proof. vm_compute. repeat split. Qed.

(** ** The brace rule of Go, through the matcher *)

Lemma word_not_space a : is_word a = true -> is_space a = false.
Proof.
  destruct a as [[] [] [] [] [] [] [] []]; vm_compute; congruence.
Qed.

Lemma star_prev A c (k : option ascii -> string -> option A) :
  (forall p1 p2 x, k p1 x = k p2 x) ->
  forall s p1 p2, star c p1 s k = star c p2 s k.
Proof.
  intros Hk. induction s as [| a s IH]; intros p1 p2; cbn [star].
  - apply Hk.
  - destruct (cset_match c a); [| apply Hk].
    now rewrite (Hk p1 p2).
Qed.

(** When the continuation fails wherever the next character is still in
    the class, the greedy repetition commits to the longest run. *)
Lemma star_commit A c (k : option ascii -> string -> option A) :
  (forall p1 p2 x, k p1 x = k p2 x) ->
  forall s prev,
    (forall pre a s', s = pre +:+ String a s' ->
                      cset_match c a = true -> k None (String a s') = None) ->
    star c prev s k = k None (skip_while (cset_match c) s).
Proof.
  intros Hk. induction s as [| a s IH]; intros prev Hfail; cbn [star skip_while].
  - apply Hk.
  - destruct (cset_match c a) eqn:Ha; [| apply Hk].
    rewrite (IH (Some a)).
    + destruct (k None (skip_while (cset_match c) s)); [reflexivity |].
      rewrite (Hk prev None). now apply (Hfail "").
    + intros pre b s' -> Hb. now apply (Hfail (String a pre)).
Qed.

Lemma has_char_suffix c pre s :
  has_char c (pre +:+ s) = false -> has_char c s = false.
Proof.
  rewrite has_char_append. intros H. now apply orb_false_elim in H.
Qed.

Lemma skip_while_suffix p s : exists pre, s = pre +:+ skip_while p s.
Proof.
  induction s as [| a s [pre IH]]; cbn.
  - now exists "".
  - destruct (p a); [| now exists ""].
    exists (String a pre). cbn. now rewrite <- IH.
Qed.

Lemma has_char_skip_while c p s :
  has_char c s = false -> has_char c (skip_while p s) = false.
Proof.
  intros H. destruct (skip_while_suffix p s) as [pre E].
  rewrite E in H. now apply has_char_suffix in H.
Qed.

Lemma has_char_tail c a s :
  has_char c (String a s) = false -> has_char c s = false.
Proof. cbn. intros H. now apply orb_false_elim in H. Qed.

(** Texts without a given character: tails and skipped prefixes. *)
Create HintDb free_of discriminated.
#[local] Hint Resolve has_char_tail has_char_skip_while : free_of.

Lemma consumed_all s : consumed s "" = s.
Proof.
  unfold consumed. cbn [String.length]. rewrite Nat.sub_0_r.
  induction s; cbn; now f_equal.
Qed.

Lemma consumed_skip_while p s :
  consumed s (skip_while p s) = take_while p s.
Proof.
  unfold consumed. induction s as [| a s IH]; cbn; [reflexivity |].
  destruct (p a).
  - destruct (skip_while_suffix p s) as [pre E].
    assert (L : (String.length (skip_while p s) <= String.length s)%nat).
    { rewrite E at 2. rewrite length_append. lia. }
    replace (S (String.length s) - String.length (skip_while p s))%nat
      with (S (String.length s - String.length (skip_while p s))) by lia.
    cbn. now rewrite IH.
  - cbn. now rewrite Nat.sub_diag.
Qed.

(** On a text without line feed, [$] holds at the end only. *)
Lemma at_eol_plain s :
  has_char LF s = false -> at_eol false s = String.eqb s "".
Proof.
  destruct s as [| a [| b s]]; cbn; [reflexivity | |].
  - intros H. apply orb_false_elim in H as [H _]. exact H.
  - reflexivity.
Qed.
Lemma lit_brace_prev p1 p2 x : lit "{" p1 x = lit "{" p2 x.
Proof. destruct x as [| c x]; cbn [lit]; [reflexivity |]. now destruct (Ascii.eqb c "{"). Qed.

Lemma brace_match_here prev s :
  has_char LF s = false ->
  match_here false brace_spacing prev s =
  match brace_at s with
  | Some w => Some (mkMatch s [(1%nat, w)] "")
  | None => None
  end.
Proof.
  intros Hlf. unfold match_here, brace_spacing. cbn [cat run].
  destruct s as [| a s]; [reflexivity |].
  unfold brace_at. cbn [take_while skip_while cset_match].
  destruct (is_word a) eqn:Ha; [| reflexivity].
  assert (Hs : has_char LF s = false)
    by eauto with free_of.
  rewrite star_commit.
  2:{ intros p1 p2 x. apply star_prev. intros q1 q2 y.
      now rewrite (lit_brace_prev q1 q2). }
  2:{ intros pre b s' _ Hb. cbn [cset_match] in Hb. cbn [star cset_match].
      rewrite (word_not_space _ Hb). cbn [lit].
      destruct (Ascii.eqb_spec b "{") as [-> |]; [discriminate Hb | reflexivity]. }
  change (cset_match Word) with is_word.
  set (s1 := skip_while is_word s).
  assert (H1 : has_char LF s1 = false) by (subst s1; auto with free_of).
  rewrite star_commit.
  2:{ intros q1 q2 y. now rewrite (lit_brace_prev q1 q2). }
  2:{ intros pre b s' _ Hb. cbn [cset_match] in Hb. cbn [lit].
      destruct (Ascii.eqb_spec b "{") as [-> |]; [discriminate Hb | reflexivity]. }
  change (cset_match Space) with is_space. unfold closes.
  assert (H2 : has_char LF (skip_while is_space s1) = false)
    by auto with free_of.
  destruct (skip_while is_space s1) as [| c s3]; [reflexivity |].
  cbn [lit]. destruct (Ascii.eqb c "{"); [| reflexivity]. cbn [andb].
  assert (H3 : has_char LF s3 = false)
    by eauto with free_of.
  rewrite star_commit.
  2:{ reflexivity. }
  2:{ intros pre b s' E Hb. rewrite E in H3. apply has_char_suffix in H3.
      now rewrite (at_eol_plain _ H3). }
  change (cset_match Space) with is_space.
  rewrite at_eol_plain by auto with free_of.
  destruct (skip_while is_space s3); [| reflexivity].
  cbn [String.eqb]. rewrite consumed_all.
  pose proof (consumed_skip_while is_word (String a s)) as C.
  cbn [skip_while take_while] in C. rewrite Ha in C. fold s1 in C.
  now rewrite C.
Qed.
Lemma append_nil_r s : s +:+ "" = s.
Proof. induction s; cbn; now f_equal. Qed.

Lemma append_assoc s t u : (s +:+ t) +:+ u = s +:+ t +:+ u.
Proof. induction s; cbn; now f_equal. Qed.

Lemma sub_brace_skip_all t : forall s prev,
  sub_from false brace_spacing t prev s (String.length s) = "".
Proof.
  induction s as [| a s IH]; intros prev; cbn [String.length sub_from].
  - now rewrite brace_match_here.
  - apply IH.
Qed.

(** [re.sub] of the brace pattern by [\1 {], on a text without line
    feed, normalises the blanks around the final brace. *)
Lemma sub_brace_respace : forall s prev,
  has_char LF s = false ->
  sub_from false brace_spacing [Ref 1; Text " {"] prev s 0 = respace s.
Proof.
  induction s as [| a s IH]; intros prev Hlf.
  - cbn [sub_from]. now rewrite brace_match_here.
  - cbn [sub_from respace]. rewrite (brace_match_here _ _ Hlf).
    destruct (brace_at (String a s)) as [w |].
    + cbn [groups matched String.length expand group Nat.eqb].
      rewrite sub_brace_skip_all. cbn. now rewrite !append_nil_r.
    + f_equal. apply IH. eauto with free_of.
Qed.

Lemma search_brace_none : forall s prev,
  has_char LF s = false ->
  search_from false brace_spacing prev s = None -> respace s = s.
Proof.
  induction s as [| a s IH]; intros prev Hlf; cbn [search_from respace];
    rewrite (brace_match_here _ _ Hlf).
  - now destruct (brace_at "").
  - destruct (brace_at (String a s)); [discriminate |].
    destruct (search_from false brace_spacing (Some a) s) as [[skipped m] |] eqn:E;
      [discriminate |].
    intros _. f_equal. apply (IH (Some a)); [eauto with free_of | exact E].
Qed.

(** *** The normal form is stable *)

Lemma take_skip p s : s = take_while p s +:+ skip_while p s.
Proof. induction s as [| a s IH]; cbn; [reflexivity |]. destruct (p a); cbn; now f_equal. Qed.

Lemma take_while_idem p s : take_while p (take_while p s) = take_while p s.
Proof.
  induction s as [| a s IH]; cbn; [reflexivity |].
  destruct (p a) eqn:E; cbn; [| reflexivity]. now rewrite E, IH.
Qed.

Lemma take_while_app p u v :
  take_while p u = u -> take_while p (u +:+ v) = u +:+ take_while p v.
Proof.
  induction u as [| a u IH]; cbn; [reflexivity |].
  destruct (p a); [| discriminate]. intros H. injection H as H. now rewrite IH.
Qed.

Lemma skip_while_app p u v :
  take_while p u = u -> skip_while p (u +:+ v) = skip_while p v.
Proof.
  induction u as [| a u IH]; cbn; [reflexivity |].
  destruct (p a); [| discriminate]. intros H. injection H as H. now apply IH.
Qed.

Lemma skip_while_head p s b x : skip_while p s = String b x -> p b = false.
Proof.
  induction s as [| a s IH]; cbn; [discriminate |].
  destruct (p a) eqn:E; [exact IH |]. intros H. injection H as -> _. exact E.
Qed.

Lemma skip_while_nil_app p u v : skip_while p (u +:+ v) = "" -> skip_while p v = "".
Proof.
  induction u as [| a u IH]; cbn; [auto |].
  destruct (p a); [exact IH | discriminate].
Qed.

(** A closing part starts with a character that is not of a word. *)
Lemma closes_head t :
  closes t = true -> take_while is_word t = "" /\ skip_while is_word t = t.
Proof.
  unfold closes. destruct t as [| h t]; cbn [skip_while take_while]; [discriminate |].
  destruct (is_space h) eqn:Hs.
  - intros _. destruct (is_word h) eqn:Hw; [| auto].
    apply word_not_space in Hw. congruence.
  - intros H. apply andb_prop in H as [H _]. apply Ascii.eqb_eq in H. subst h.
    cbn. auto.
Qed.

(** No closing part holds a word. *)
Lemma closes_word_inside y w t :
  w <> "" -> take_while is_word w = w -> closes (y +:+ w +:+ t) = false.
Proof.
  intros Hne Hw. destruct w as [| h w]; [now elim Hne |].
  cbn [take_while] in Hw. destruct (is_word h) eqn:Hh; [| discriminate].
  pose proof (word_not_space _ Hh) as Hsp.
  assert (Hbrace : Ascii.eqb h "{" = false).
  { destruct (Ascii.eqb_spec h "{") as [-> |]; [discriminate Hh | reflexivity]. }
  unfold closes.
  rewrite (take_skip is_space y) at 1. rewrite append_assoc.
  rewrite skip_while_app by apply take_while_idem.
  destruct (skip_while is_space y) as [| c y2] eqn:Ey.
  - cbn [String.append skip_while]. now rewrite Hsp, Hbrace.
  - pose proof (skip_while_head _ _ _ _ Ey) as Hc.
    cbn [String.append skip_while]. rewrite Hc.
    destruct (Ascii.eqb c "{"); [| reflexivity]. cbn [andb].
    match goal with
    | |- context [String.eqb ?z ""] => destruct z eqn:E; [| reflexivity]
    end.
    apply skip_while_nil_app in E. cbn [skip_while] in E.
    rewrite Hsp in E. discriminate.
Qed.

(** Whether a word and a closing part start a text does not depend on
    which closing part ends it. *)
Lemma brace_at_tail x w t t' :
  take_while is_word w = w -> w <> "" ->
  closes t = true -> closes t' = true ->
  brace_at (x +:+ w +:+ t) = brace_at (x +:+ w +:+ t').
Proof.
  intros Hw Hne Ht Ht'.
  assert (G : forall t0, closes t0 = true ->
            brace_at (x +:+ w +:+ t0) =
            match skip_while is_word x with
            | EmptyString => Some (x +:+ w)
            | _ => None
            end).
  { intros t0 Ht0. destruct (closes_head _ Ht0) as [T1 T2]. unfold brace_at.
    destruct (skip_while is_word x) as [| b x2] eqn:Ex.
    - assert (Hx : take_while is_word x = x).
      { rewrite (take_skip is_word x) at 2. now rewrite Ex, append_nil_r. }
      assert (Hxw : take_while is_word (x +:+ w) = x +:+ w).
      { rewrite take_while_app by exact Hx. now rewrite Hw. }
      rewrite <- append_assoc.
      rewrite take_while_app, skip_while_app by exact Hxw.
      rewrite T1, T2, Ht0, append_nil_r.
      destruct (x +:+ w) eqn:E; [| reflexivity].
      destruct x; [| discriminate]. cbn in E. congruence.
    - pose proof (skip_while_head _ _ _ _ Ex) as Hb.
      pose proof (take_skip is_word x) as X. rewrite Ex in X.
      pose proof (take_while_idem is_word x) as Hu.
      remember (take_while is_word x) as u eqn:U. clear U Ex. subst x.
      rewrite append_assoc.
      rewrite take_while_app, skip_while_app by exact Hu.
      cbn [String.append take_while skip_while]. rewrite Hb, append_nil_r.
      change (String b (x2 +:+ w +:+ t0)) with (String b x2 +:+ w +:+ t0).
      rewrite (closes_word_inside _ _ _ Hne Hw).
      now destruct u. }
  now rewrite (G t Ht), (G t' Ht').
Qed.

Lemma brace_at_parts s w :
  brace_at s = Some w ->
  s = w +:+ skip_while is_word s /\ take_while is_word w = w /\ w <> "" /\
  closes (skip_while is_word s) = true.
Proof.
  unfold brace_at. intros H.
  destruct (take_while is_word s) as [| a u] eqn:E; [discriminate |].
  destruct (closes (skip_while is_word s)) eqn:C; [| discriminate].
  injection H as <-. repeat split.
  - rewrite <- E. apply take_skip.
  - rewrite <- E. apply take_while_idem.
  - discriminate.
Qed.

Lemma brace_at_respace : forall s x, brace_at (x +:+ respace s) = brace_at (x +:+ s).
Proof.
  induction s as [| a s IH]; intros x; cbn [respace].
  - reflexivity.
  - destruct (brace_at (String a s)) as [w |] eqn:E.
    + destruct (brace_at_parts _ _ E) as (Hs & Hw & Hne & Hc).
      rewrite Hs at 1. now apply brace_at_tail.
    + specialize (IH (x +:+ String a "")). rewrite !append_assoc in IH.
      exact IH.
Qed.

Lemma respace_idempotent : forall s, respace (respace s) = respace s.
Proof.
  induction s as [| a s IH]; cbn [respace].
  - reflexivity.
  - destruct (brace_at (String a s)) as [w |] eqn:E.
    + destruct (brace_at_parts _ _ E) as (Hs & Hw & Hne & Hc).
      assert (B : brace_at (w +:+ " {") = Some w).
      { rewrite <- E. rewrite Hs at 1.
        apply (brace_at_tail "" w " {" (skip_while is_word (String a s)));
          auto. }
      destruct w as [| h w]; [now elim Hne |].
      cbn [String.append respace]. cbn [String.append] in B. now rewrite B.
    + cbn [respace].
      pose proof (brace_at_respace s (String a "")) as B.
      cbn [String.append] in B. rewrite B, E. now rewrite IH.
Qed.
(** ** Running the Go rules twice *)

Lemma rules_of_go :
  rules_of "go" = [("unused_import", unused_import); ("gofmt_spacing", gofmt_spacing)].
Proof. reflexivity. Qed.

Lemma sub_brace l :
  has_char LF l = false -> sub brace_spacing [Ref 1; Text " {"] l = respace l.
Proof. intros H. now apply sub_brace_respace. Qed.

(** The final text of a line under the Go rules is its normal form. *)
Lemma go_final_line l :
  has_char LF l = false ->
  List.last (changed (rules_of "go") l) l = respace l.
Proof.
  intros Hlf. rewrite rules_of_go.
  assert (E : changed [("gofmt_spacing", gofmt_spacing)] l =
              if search brace_spacing l
              then if String.eqb (respace l) l then [] else [respace l]
              else []).
  { cbn [changed gofmt_spacing pattern fix_]. now rewrite sub_brace. }
  assert (U : changed [("unused_import", unused_import);
                       ("gofmt_spacing", gofmt_spacing)] l
              = changed [("gofmt_spacing", gofmt_spacing)] l).
  { change (changed [("unused_import", unused_import);
                     ("gofmt_spacing", gofmt_spacing)] l)
      with (if search (pattern unused_import) l
            then if String.eqb l l
                 then changed [("gofmt_spacing", gofmt_spacing)] l
                 else l :: changed [("gofmt_spacing", gofmt_spacing)] l
            else changed [("gofmt_spacing", gofmt_spacing)] l).
    rewrite String.eqb_refl. now destruct (search (pattern unused_import) l). }
  rewrite U, E. unfold search.
  destruct (search_from false brace_spacing None l) eqn:S.
  - destruct (String.eqb_spec (respace l) l) as [R | R]; [now rewrite R | reflexivity].
  - cbn. symmetry. now apply (search_brace_none l None).
Qed.

(** On a line in normal form the Go rules record no fix. *)
Lemma go_no_fix_on_normal_form i l :
  has_char LF l = false -> respace l = l ->
  line_fixes (rules_of "go") i l = [].
Proof.
  intros Hlf Hn. rewrite rules_of_go.
  cbn [line_fixes unused_import gofmt_spacing pattern fix_]. unfold _fix_go_imports.
  rewrite String.eqb_refl, (sub_brace _ Hlf), Hn, String.eqb_refl.
  repeat match goal with |- context [if ?b then _ else _] => destruct b end;
    reflexivity.
Qed.

Lemma has_char_take_while c p s :
  has_char c s = false -> has_char c (take_while p s) = false.
Proof.
  induction s as [| a s IH]; cbn; [reflexivity |].
  intros H. apply orb_false_elim in H as [Ha Hs].
  destruct (p a); cbn; [| reflexivity]. now rewrite Ha, IH.
Qed.

Lemma respace_one_line : forall s,
  has_char LF s = false -> has_char LF (respace s) = false.
Proof.
  induction s as [| a s IH]; intros Hlf; cbn [respace]; [reflexivity |].
  destruct (brace_at (String a s)) as [w |] eqn:E.
  - unfold brace_at in E.
    destruct (take_while is_word (String a s)) as [| h u] eqn:T; [discriminate |].
    destruct (closes _); [| discriminate]. injection E as <-.
    rewrite has_char_append, <- T, (has_char_take_while _ _ _ Hlf). reflexivity.
  - cbn in *. apply orb_false_elim in Hlf as [Ha Hs]. now rewrite Ha, IH.
Qed.

(** [split] and [join] on lists of one-line texts. *)
Lemma split_one_line s :
  Forall (fun x => has_char LF x = false) (split LF s).
Proof.
  induction s as [| a s IH]; cbn [split].
  - now repeat constructor.
  - destruct (Ascii.eqb a LF) eqn:E.
    + now constructor.
    + destruct (split LF s) as [| l ls]; inversion IH; subst;
        constructor; cbn; try rewrite E; auto.
Qed.

Lemma split_join l :
  l <> [] -> Forall (fun x => has_char LF x = false) l ->
  split LF (join (String LF "") l) = l.
Proof.
  unfold join. induction l as [| x l IH]; intros Hne Hall; [now elim Hne |].
  inversion Hall as [| ? ? Hx Hl]; subst.
  destruct l as [| y l].
  - cbn. now apply split_no_sep.
  - change (String.concat (String LF "") (x :: y :: l))
      with (x +:+ String LF (String.concat (String LF "") (y :: l))).
    rewrite split_app_sep, IH, (split_no_sep _ _ Hx); [reflexivity | discriminate | exact Hl].
Qed.

Lemma per_line_nil f : forall l i,
  Forall (fun x => forall j, f j x = []) l -> per_line f i l = [].
Proof.
  induction l as [| x l IH]; intros i H; cbn; [reflexivity |].
  inversion H; subst. now rewrite H2, IH.
Qed.

(** The engine's computation on the output of a Go run: issues only, and
    the same text. *)
Lemma go_analyze_twice content :
  let corrected := snd (analyze (rules_of "go") content) in
  analyze (rules_of "go") corrected =
  (per_line (line_issues (rules_of "go")) 0 (split LF corrected), corrected).
Proof.
  cbv zeta. rewrite (analyze_unfold _ content). cbn [snd].
  set (original := split LF content).
  assert (Ho : Forall (fun x => has_char LF x = false) original)
    by apply split_one_line.
  assert (M : List.map (fun line => List.last (changed (rules_of "go") line) line)
                original = List.map respace original).
  { apply map_ext_Forall. eapply Forall_impl; [exact Ho |].
    intros l Hl. now apply go_final_line. }
  rewrite M.
  assert (Hn : Forall (fun x => has_char LF x = false) (List.map respace original)).
  { apply Forall_map. eapply Forall_impl; [exact Ho |].
    intros l Hl. now apply respace_one_line. }
  rewrite analyze_unfold.
  rewrite split_join; [| | exact Hn].
  2:{ pose proof (split_nonempty LF content) as N. fold original in N.
      destruct original; [now elim N | discriminate]. }
  rewrite (per_line_nil (line_fixes (rules_of "go"))).
  2:{ apply Forall_map. eapply Forall_impl; [exact Ho |].
      intros l Hl j. apply go_no_fix_on_normal_form.
      - now apply respace_one_line.
      - apply respace_idempotent. }
  rewrite app_nil_r. f_equal. f_equal. rewrite List.map_map.
  apply map_ext_Forall. eapply Forall_impl; [exact Ho |].
  intros l Hl. cbv beta. rewrite go_final_line by now apply respace_one_line.
  apply respace_idempotent.
Qed.

(** ** Two runs through the cache *)

Lemma append_inj_l s t u : s +:+ t = s +:+ u -> t = u.
Proof. induction s; cbn; intros H; [exact H |]. injection H as H. auto. Qed.

Lemma cache_key_digest language c1 c2 :
  cache_key language c1 = cache_key language c2 ->
  Hashlib.md5_hexdigest c1 = Hashlib.md5_hexdigest c2.
Proof.
  unfold cache_key. intros H. apply append_inj_l in H.
  now apply (append_inj_l "_") in H.
Qed.

(** A lookup after one run: sound for every content whose digest does not
    collide with that of the content just analysed. *)
Lemma analyze_syntax_errors_next cache content language patterns content' :
  cache_sound cache ->
  LanguageDetector.lookup language fix_patterns = Some patterns ->
  (Hashlib.md5_hexdigest content' = Hashlib.md5_hexdigest content ->
   content' = content) ->
  fst (analyze_syntax_errors
         (snd (analyze_syntax_errors cache content language)) content' language)
  = analyze patterns content'.
Proof.
  intros Hs Hl Hd. unfold analyze_syntax_errors at 2. rewrite Hl.
  destruct (cache !! cache_key language content) as [cached |] eqn:E; cbn [snd].
  - now apply analyze_syntax_errors_sound.
  - unfold analyze_syntax_errors. rewrite Hl.
    destruct (decide (cache_key language content = cache_key language content')) as [K | K].
    + rewrite <- K, lookup_insert_eq. cbn [fst].
      symmetry in K. apply cache_key_digest, Hd in K. now rewrite K.
    + rewrite lookup_insert_ne by exact K.
      destruct (cache !! cache_key language content') as [cached |] eqn:E';
        cbn [fst]; [| reflexivity].
      exact (Hs _ _ _ _ Hl E').
Qed.

(** C4 (amended). For the Go rules and every content: a second run of the
    engine on the text the first run returned applies no fix. Its log
    holds issue entries only and its text is the text it was given. The
    cache is assumed sound before the first run, and the digest of the
    corrected text not to collide with that of the content. *)
Theorem go_second_run_no_fix cache content :
  let first := analyze_syntax_errors cache content "go" in
  let corrected := snd (fst first) in
  let second := analyze_syntax_errors (snd first) corrected "go" in
  cache_sound cache ->
  (Hashlib.md5_hexdigest corrected = Hashlib.md5_hexdigest content ->
   corrected = content) ->
  fst second =
  (per_line (line_issues (rules_of "go")) 0 (split LF corrected), corrected).
Proof.
  cbv zeta. intros Hs Hd.
  rewrite (analyze_syntax_errors_next cache content "go" (rules_of "go") _
             Hs eq_refl Hd).
  rewrite (analyze_syntax_errors_sound cache content "go" (rules_of "go") Hs eq_refl).
  apply go_analyze_twice.
Qed.

(** A struct header with stray blanks around its brace. *)
Lemma go_second_run_no_fix_witness :
  let first := analyze_syntax_errors ∅ "type T struct  {  " "go" in
  let corrected := snd (fst first) in
  let second := analyze_syntax_errors (snd first) corrected "go" in
  fst second =
  (per_line (line_issues (rules_of "go")) 0 (split LF corrected), corrected).
Proof.
  apply (go_second_run_no_fix ∅ "type T struct  {  ").
  - apply cache_sound_empty.
  - vm_compute. discriminate.
Defined.

(** The witness in values: the first run fixes the spacing, the second
    reports the issue again and fixes nothing. *)
Example go_two_runs :
  let first := analyze_syntax_errors ∅ "type T struct  {  " "go" in
  let second := analyze_syntax_errors (snd first) (snd (fst first)) "go" in
  fst first =
  (["Line 1: Go formatting"; "Fixed gofmt_spacing on line 1"], "type T struct {")
  /\ fst second = (["Line 1: Go formatting"], "type T struct {").
Proof. vm_compute. split; reflexivity. Qed.

(** ** What a successful match tells *)

Lemma lit_inv t : forall prev s p' s',
  lit t prev s = Some (p', s') -> s = t +:+ s'.
Proof.
  induction t as [| c t IH]; intros prev s p' s'; cbn [lit].
  - intros H. now injection H as _ ->.
  - destruct s as [| a s]; [discriminate |].
    destruct (Ascii.eqb_spec a c) as [-> |]; [| discriminate].
    intros H. cbn. f_equal. exact (IH _ _ _ _ H).
Qed.

(** A successful repetition consumed a run of the class and then the
    continuation succeeded. *)
Lemma star_inv A c (k : option ascii -> string -> option A) : forall s prev x,
  star c prev s k = Some x ->
  exists u s' p',
    s = u +:+ s' /\ take_while (cset_match c) u = u /\ k p' s' = Some x.
Proof.
  induction s as [| a s IH]; intros prev x; cbn [star].
  - intros H. now exists "", "", prev.
  - destruct (cset_match c a) eqn:Ha.
    + destruct (star c (Some a) s k) as [y |] eqn:E.
      * intros H. injection H as ->.
        destruct (IH _ _ E) as (u & s' & p' & -> & Hu & Hk).
        exists (String a u), s', p'. cbn. now rewrite Ha, Hu.
      * intros H. now exists "", (String a s), prev.
    + intros H. now exists "", (String a s), prev.
Qed.

(** Whatever the pattern, a successful match is a success of the
    continuation on some remainder of the subject. *)
Lemma run_sound A m r : forall prev s g (k : option ascii -> string -> captures -> option A) x,
  run m r prev s g k = Some x ->
  exists p' s' g', (exists u, s = u +:+ s') /\ k p' s' g' = Some x.
Proof.
  induction r as [| t | c | c | c | c | | | n r IH | r1 IH1 r2 IH2 | r1 IH1 r2 IH2];
    intros prev s g k x; cbn [run].
  - intros H. exists prev, s, g. split; [now exists "" | exact H].
  - destruct (lit t prev s) as [[p' s'] |] eqn:E; [| discriminate].
    intros H. exists p', s', g. split; [| exact H].
    exists t. exact (lit_inv _ _ _ _ _ E).
  - destruct s as [| a s]; [discriminate |].
    destruct (cset_match c a); [| discriminate].
    intros H. exists (Some a), s, g. split; [now exists (String a "") | exact H].
  - intros H. destruct (star_inv _ _ _ _ _ _ H) as (u & s' & p' & -> & _ & Hk).
    exists p', s', g. split; [now exists u | exact Hk].
  - destruct s as [| a s]; [discriminate |].
    destruct (cset_match c a); [| discriminate].
    intros H. destruct (star_inv _ _ _ _ _ _ H) as (u & s' & p' & -> & _ & Hk).
    exists p', s', g. split; [now exists (String a u) | exact Hk].
  - destruct s as [| a s].
    + intros H. exists prev, "", g. split; [now exists "" | exact H].
    + destruct (cset_match c a).
      * destruct (k (Some a) s g) as [y |] eqn:E.
        -- intros H. injection H as ->. exists (Some a), s, g.
           split; [now exists (String a "") | exact E].
        -- intros H. exists prev, (String a s), g. split; [now exists "" | exact H].
      * intros H. exists prev, (String a s), g. split; [now exists "" | exact H].
  - destruct (at_bol m prev); [| discriminate].
    intros H. exists prev, s, g. split; [now exists "" | exact H].
  - destruct (at_eol m s); [| discriminate].
    intros H. exists prev, s, g. split; [now exists "" | exact H].
  - intros H. destruct (IH _ _ _ _ _ H) as (p' & s' & g' & Hs & Hk).
    now exists p', s', ((n, consumed s s') :: g').
  - destruct (run m r1 prev s g k) as [y |] eqn:E.
    + intros H. injection H as ->. exact (IH1 _ _ _ _ _ E).
    + intros H. exact (IH2 _ _ _ _ _ H).
  - intros H. destruct (IH1 _ _ _ _ _ H) as (p1 & s1 & g1 & [u1 ->] & H1).
    destruct (IH2 _ _ _ _ _ H1) as (p2 & s2 & g2 & [u2 ->] & H2).
    exists p2, s2, g2. split; [| exact H2].
    exists (u1 +:+ u2). now rewrite append_assoc.
Qed.
Lemma run_seq_sound A m r1 r2 prev s g
  (k : option ascii -> string -> captures -> option A) x :
  run m (Seq r1 r2) prev s g k = Some x ->
  exists p1 s1 g1, (exists u, s = u +:+ s1) /\ run m r2 p1 s1 g1 k = Some x.
Proof. cbn [run]. apply run_sound. Qed.

(** No match anywhere when there is none at any position. *)
Lemma search_from_none m r : forall s prev,
  (forall p u s', s = u +:+ s' -> match_here m r p s' = None) ->
  search_from m r prev s = None.
Proof.
  induction s as [| a s IH]; intros prev H; cbn [search_from].
  - now rewrite (H prev "" "").
  - rewrite (H prev "" (String a s)) by reflexivity.
    rewrite IH; [reflexivity |].
    intros p u s' ->. now apply (H p (String a u)).
Qed.

(** *** Texts that end with a given character *)

Lemma ends_with_suffix c : forall u s s',
  s = u +:+ s' -> ends_with c s -> s' = "" \/ ends_with c s'.
Proof.
  induction u as [| a u IH]; intros s s' -> [t Ht].
  - right. now exists t.
  - destruct t as [| b t]; cbn in Ht; injection Ht as -> Ht.
    + left. destruct u; [exact Ht | discriminate].
    + apply (IH _ _ eq_refl). now exists t.
Qed.

Lemma ends_with_all c p : forall u,
  ends_with c u -> take_while p u = u -> p c = true.
Proof.
  intros u [t ->]. induction t as [| a t IH]; cbn.
  - destruct (p c); [reflexivity | discriminate].
  - destruct (p a); [| discriminate]. intros H. injection H as H. auto.
Qed.

Lemma ends_with_not_eol c s :
  ends_with c s -> Ascii.eqb c LF = false -> at_eol false s = false.
Proof.
  intros [t ->] Hc. destruct t as [| a t]; cbn; [exact Hc |].
  now destruct t.
Qed.

Lemma ends_with_cons c a s : ends_with c (String a s) -> s = "" \/ ends_with c s.
Proof. intros H. now apply (ends_with_suffix c (String a "") (String a s) s). Qed.

Lemma ends_with_single c a : ends_with c (String a "") -> a = c.
Proof.
  intros [t Ht]. destruct t as [| b t]; cbn in Ht.
  - now injection Ht.
  - injection Ht as _ Ht. now destruct t.
Qed.

(** *** missing_colon does not match a line that ends with a colon *)

Lemma missing_colon_none_here prev s :
  s = "" \/ ends_with ":" s ->
  match_here false (pattern missing_colon) prev s = None.
Proof.
  intros Hs. destruct (match_here _ _ prev s) as [m |] eqn:E; [exfalso | reflexivity].
  unfold match_here, missing_colon, pattern in E. cbn [cat] in E.
  apply run_seq_sound in E as (p1 & s1 & g1 & [u1 E1] & E).
  cbn [run] in E.
  destruct s1 as [| a s0]; [discriminate |].
  cbn [cset_match] in E. destruct (is_space a) eqn:Ha; [| discriminate].
  apply star_inv in E as (u2 & s2 & p2 & -> & Hu2 & E).
  apply star_inv in E as (u3 & s3 & p3 & -> & Hu3 & E).
  destruct (at_eol false s3) eqn:Eol; [| discriminate].
  assert (H1 : ends_with ":" (String a (u2 +:+ u3 +:+ s3))).
  { destruct Hs as [-> | Hs]; [now destruct u1 |].
    destruct (ends_with_suffix _ _ _ _ E1 Hs); [discriminate | assumption]. }
  assert (H2 : ends_with ":" (u3 +:+ s3)).
  { destruct (ends_with_suffix ":" (String a u2) _ (u3 +:+ s3) eq_refl H1) as [N | H];
      [| exact H].
    rewrite N, append_nil_r in H1.
    change (cset_match Space) with is_space in Hu2.
    assert (T : take_while is_space (String a u2) = String a u2)
      by (cbn; now rewrite Ha, Hu2).
    pose proof (ends_with_all _ _ _ H1 T). discriminate. }
  assert (H3 : ends_with ":" s3).
  { destruct (ends_with_suffix ":" u3 _ s3 eq_refl H2) as [N | H]; [| exact H].
    rewrite N, append_nil_r in H2.
    pose proof (ends_with_all _ _ _ H2 Hu3). discriminate. }
  rewrite (ends_with_not_eol _ _ H3 eq_refl) in Eol. discriminate.
Qed.

(** missing_colon does not trigger on its own output. *)
Lemma missing_colon_quiet l :
  search (pattern missing_colon) (rstrip l +:+ ":") = false.
Proof.
  unfold search. rewrite search_from_none; [reflexivity |].
  intros p u s' E. apply missing_colon_none_here.
  apply (ends_with_suffix ":" u _ s' E). now exists (rstrip l).
Qed.

(** *** print_parentheses does not match a line that ends with a
    closing parenthesis *)

Lemma print_parentheses_none_here prev s :
  s = "" \/ ends_with ")" s ->
  match_here false (pattern print_parentheses) prev s = None.
Proof.
  intros Hs. destruct (match_here _ _ prev s) as [m |] eqn:E; [exfalso | reflexivity].
  unfold match_here, print_parentheses, pattern in E. cbn [cat] in E.
  apply run_seq_sound in E as (p1 & s1 & g1 & [u1 E1] & E).
  apply run_seq_sound in E as (p2 & s2 & g2 & [u2 E2] & E).
  apply run_seq_sound in E as (p3 & s3 & g3 & [u3 E3] & E).
  apply run_seq_sound in E as (p4 & s4 & g4 & [u4 E4] & E).
  cbn [run] in E.
  destruct s4 as [| d s5]; [discriminate |].
  destruct (cset_match (NoneOf [IChar ")"]) d) eqn:Hd; [| discriminate].
  destruct (at_eol false s5) eqn:Eol; [| discriminate].
  assert (E0 : s = (u1 +:+ u2 +:+ u3 +:+ u4) +:+ String d s5).
  { subst s s1 s2 s3. now rewrite !append_assoc. }
  assert (H4 : ends_with ")" (String d s5)).
  { destruct Hs as [-> | Hs].
    - destruct (u1 +:+ u2 +:+ u3 +:+ u4); discriminate.
    - destruct (ends_with_suffix _ _ _ _ E0 Hs); [discriminate | assumption]. }
  destruct (ends_with_cons _ _ _ H4) as [-> | H5].
  - apply ends_with_single in H4. subst d. discriminate.
  - rewrite (ends_with_not_eol _ _ H5 eq_refl) in Eol. discriminate.
Qed.

Lemma print_parentheses_quiet s :
  ends_with ")" s -> search (pattern print_parentheses) s = false.
Proof.
  intros Hs. unfold search. rewrite search_from_none; [reflexivity |].
  intros p u s' E. apply print_parentheses_none_here.
  exact (ends_with_suffix ")" u _ s' E Hs).
Qed.
(** *** The substitution of print_parentheses *)

Lemma print_parentheses_fix l :
  fix_ print_parentheses l = Returned (sub print_call print_call_template l).
Proof. reflexivity. Qed.

(** With a continuation that always succeeds, the greedy repetition
    takes the longest run. *)
Lemma star_greedy A c (k : option ascii -> string -> option A) :
  (forall p x, k p x <> None) ->
  forall s prev, exists p', star c prev s k = k p' (skip_while (cset_match c) s).
Proof.
  intros Hk. induction s as [| a s IH]; intros prev; cbn [star skip_while].
  - now exists prev.
  - destruct (cset_match c a); [| now exists prev].
    destruct (IH (Some a)) as [p' E]. exists p'. rewrite E.
    destruct (k p' (skip_while (cset_match c) s)) eqn:K; [reflexivity |].
    now elim (Hk _ _ K).
Qed.

Lemma skip_dot_one_line s :
  has_char LF s = false -> skip_while (cset_match Dot) s = "".
Proof.
  induction s as [| a s IH]; cbn [skip_while cset_match has_char]; [reflexivity |].
  intros H. apply orb_false_elim in H as [Ha Hs]. rewrite Ha. cbn. auto.
Qed.

(** On a line, a match of print\s+(.+) runs to the end of the line. *)
Lemma print_call_to_end prev s m :
  has_char LF s = false ->
  match_here false print_call prev s = Some m -> matched m = s.
Proof.
  intros Hlf E. unfold match_here, print_call in E. cbn [cat] in E.
  apply run_seq_sound in E as (p1 & s1 & g1 & [u1 E1] & E).
  apply run_seq_sound in E as (p2 & s2 & g2 & [u2 E2] & E).
  cbn [run] in E. destruct s2 as [| a s3]; [discriminate |].
  destruct (cset_match Dot a); [| discriminate].
  match type of E with
  | star _ _ _ ?k = _ => destruct (star_greedy _ Dot k) with (s := s3) (prev := Some a) as [p' G]
  end.
  { intros p x. discriminate. }
  rewrite G in E. clear G.
  rewrite skip_dot_one_line in E.
  - injection E as <-. cbn [matched]. apply consumed_all.
  - subst s s1. eauto using has_char_suffix, has_char_tail.
Qed.

Lemma sub_print_skip_all : forall s prev,
  sub_from false print_call print_call_template prev s (String.length s) = "".
Proof.
  induction s as [| a s IH]; intros prev; cbn [String.length sub_from];
    [reflexivity | apply IH].
Qed.

(** The substitution leaves the line as it is, or returns a text that
    ends with a closing parenthesis. *)
Lemma sub_print_shape : forall s prev,
  has_char LF s = false ->
  sub_from false print_call print_call_template prev s 0 = s \/
  ends_with ")" (sub_from false print_call print_call_template prev s 0).
Proof.
  induction s as [| a s IH]; intros prev Hlf.
  - now left.
  - cbn [sub_from].
    destruct (match_here false print_call prev (String a s)) as [m |] eqn:E.
    + right. rewrite (print_call_to_end _ _ _ Hlf E). cbn [String.length].
      rewrite sub_print_skip_all. cbn [print_call_template expand].
      exists ("print(" +:+ group 1 (groups m)).
      now rewrite !append_nil_r, append_assoc.
    + destruct (IH (Some a) (has_char_tail _ _ _ Hlf)) as [-> | [t ->]].
      * now left.
      * right. now exists (String a t).
Qed.

(** print_parentheses settles on its own output. *)
Lemma print_parentheses_settles l :
  has_char LF l = false ->
  settles_on_own_output l ("print_parentheses", print_parentheses) = true.
Proof.
  intros Hlf. unfold settles_on_own_output. cbn [snd].
  destruct (search (pattern print_parentheses) l); [| reflexivity].
  rewrite print_parentheses_fix.
  pose proof (sub_print_shape l None Hlf) as H.
  fold (sub print_call print_call_template l) in H.
  destruct H as [E | H].
  - rewrite print_parentheses_fix, !E, String.eqb_refl. apply orb_true_r.
  - now rewrite (print_parentheses_quiet _ H).
Qed.

(** missing_colon settles on its own output. *)
Lemma missing_colon_settles l :
  settles_on_own_output l ("missing_colon", missing_colon) = true.
Proof.
  unfold settles_on_own_output. cbn [snd].
  destruct (search (pattern missing_colon) l); [| reflexivity].
  cbn [fix_ missing_colon]. now rewrite (missing_colon_quiet l).
Qed.
(** *** The indentation transform *)

Lemma indentation_fix line :
  _fix_python_indentation line =
  match strip line with
  | EmptyString => line
  | stripped =>
      if match_ (line_starts keywords_block) line then "    " +:+ stripped
      else if match_ (line_starts keywords_continue) line then stripped
      else "    " +:+ stripped
  end.
Proof. reflexivity. Qed.

Lemma lstrip_skip_while s : lstrip s = skip_while is_space s.
Proof. induction s as [| a s IH]; cbn; [reflexivity |]. now rewrite IH. Qed.

Lemma lit_startswith kw : forall p x,
  match lit kw p x with Some _ => true | None => false end = startswith kw x.
Proof.
  induction kw as [| c kw IH]; intros p x; cbn [lit startswith]; [reflexivity |].
  destruct x as [| a x]; [reflexivity |].
  destruct (Ascii.eqb a c); cbn [andb]; [apply IH | reflexivity].
Qed.

(** An alternation of words before a continuation that always succeeds
    matches exactly when the text starts with one of the words. *)
Lemma run_alts A m (k : option ascii -> string -> captures -> option A) :
  (forall p s g, k p s g <> None) ->
  forall kws prev x g, kws <> [] ->
  match run m (alts kws) prev x g k with Some _ => true | None => false end
  = existsb (fun kw => startswith kw x) kws.
Proof.
  intros Hk. induction kws as [| kw kws IH]; intros prev x g Hne; [now elim Hne |].
  assert (L : match run m (Lit kw) prev x g k with Some _ => true | None => false end
              = startswith kw x).
  { cbn [run]. rewrite <- (lit_startswith kw prev x).
    destruct (lit kw prev x) as [[p' s'] |]; [| reflexivity].
    destruct (k p' s' g) eqn:K; [reflexivity | now elim (Hk _ _ _ K)]. }
  destruct kws as [| kw2 kws].
  - cbn [alts existsb]. now rewrite L, orb_false_r.
  - change (alts (kw :: kw2 :: kws)) with (Alt (Lit kw) (alts (kw2 :: kws))).
    change (existsb (fun kw => startswith kw x) (kw :: kw2 :: kws))
      with (startswith kw x || existsb (fun kw => startswith kw x) (kw2 :: kws)).
    rewrite <- L, <- (IH prev x g) by discriminate.
    change (run m (Alt (Lit kw) (alts (kw2 :: kws))) prev x g k)
      with (match run m (Lit kw) prev x g k with
            | Some y => Some y
            | None => run m (alts (kw2 :: kws)) prev x g k
            end).
    now destruct (run m (Lit kw) prev x g k).
Qed.

(** The greedy repetition commits to the longest run when the
    continuation fails wherever the class goes on. *)
Lemma star_commit_ex A c (k : option ascii -> string -> option A) : forall s prev,
  (forall pre a s' p, s = pre +:+ String a s' ->
                      cset_match c a = true -> k p (String a s') = None) ->
  exists p', star c prev s k = k p' (skip_while (cset_match c) s).
Proof.
  induction s as [| a s IH]; intros prev Hfail; cbn [star skip_while].
  - now exists prev.
  - destruct (cset_match c a) eqn:Ha; [| now exists prev].
    destruct (IH (Some a)) as [p' E].
    + intros pre b s' p -> Hb. now apply (Hfail (String a pre)).
    + exists p'. rewrite E.
      destruct (k p' (skip_while (cset_match c) s)); [reflexivity |].
      now apply (Hfail "").
Qed.

Lemma plain_word_head w a x :
  plain_word w = true -> is_space a = true -> startswith w (String a x) = false.
Proof.
  unfold plain_word. destruct w as [| c w]; [discriminate |].
  cbn. intros H Ha. apply andb_prop in H as [H _].
  destruct (Ascii.eqb_spec a c) as [-> |]; [| reflexivity].
  rewrite Ha in H. discriminate.
Qed.

(** The tests of [_fix_python_indentation]: the line, past its leading
    blanks, starts with one of the keywords. *)
Lemma match_line_starts kws l :
  kws <> [] -> forallb plain_word kws = true ->
  match_ (line_starts kws) l = existsb (fun kw => startswith kw (lstrip l)) kws.
Proof.
  intros Hne Hp. unfold match_, match_here, line_starts. cbn [cat run at_bol].
  match goal with
  | |- context [star Space None l ?k] =>
      destruct (star_commit_ex _ Space k l None) as [p' E]
  end.
  - intros pre a s' p _ Ha. cbn [cset_match] in Ha.
    match goal with
    | |- ?t = None =>
        assert (F : match t with Some _ => true | None => false end = false);
          [| now destruct t]
    end.
    rewrite run_alts; [| discriminate | exact Hne].
    clear -Hp Ha. induction kws as [| kw kws IH]; [reflexivity |].
    cbn [forallb existsb] in *. apply andb_prop in Hp as [H1 H2].
    now rewrite (plain_word_head _ _ _ H1 Ha), IH.
  - rewrite E. change (cset_match Space) with is_space.
    rewrite <- lstrip_skip_while. apply run_alts; [discriminate | exact Hne].
Qed.

(** *** [strip] *)

Lemma rstrip_cons a s : is_space a = false -> rstrip (String a s) = String a (rstrip s).
Proof. intros H. cbn [rstrip]. destruct (rstrip s); [now rewrite H | reflexivity]. Qed.

Lemma rstrip_idempotent : forall s, rstrip (rstrip s) = rstrip s.
Proof.
  induction s as [| a s IH]; [reflexivity |]. cbn [rstrip].
  destruct (rstrip s) as [| b r] eqn:E.
  - destruct (is_space a) eqn:Ha; [reflexivity |]. cbn. now rewrite Ha.
  - change (rstrip (String a (String b r)))
      with (match rstrip (String b r) with
            | EmptyString => if is_space a then EmptyString else String a EmptyString
            | String c r' => String a (String c r')
            end).
    now rewrite IH.
Qed.

Lemma lstrip_head s :
  lstrip s = "" \/ exists a s', lstrip s = String a s' /\ is_space a = false.
Proof.
  induction s as [| a s IH]; cbn [lstrip]; [now left |].
  destruct (is_space a) eqn:Ha; [exact IH |]. right. now exists a, s.
Qed.

Lemma strip_head s :
  strip s = "" \/ exists a s', strip s = String a s' /\ is_space a = false.
Proof.
  unfold strip. destruct (lstrip_head s) as [-> | (a & s' & -> & Ha)]; [now left |].
  right. exists a, (rstrip s'). now rewrite (rstrip_cons _ _ Ha).
Qed.

Lemma lstrip_strip s : lstrip (strip s) = strip s.
Proof.
  destruct (strip_head s) as [-> | (a & s' & -> & Ha)]; [reflexivity |].
  cbn. now rewrite Ha.
Qed.

Lemma strip_idempotent s : strip (strip s) = strip s.
Proof.
  unfold strip at 1. rewrite lstrip_strip. unfold strip. apply rstrip_idempotent.
Qed.

Lemma startswith_rstrip kw : forall x,
  all_chars (fun c => negb (is_space c)) kw = true ->
  startswith kw (rstrip x) = startswith kw x.
Proof.
  induction kw as [| c kw IH]; intros x H; [reflexivity |].
  cbn [all_chars] in H. apply andb_prop in H as [Hc H].
  apply negb_true_iff in Hc.
  destruct x as [| a x]; [reflexivity |].
  destruct (Ascii.eqb_spec a c) as [-> | N].
  - rewrite (rstrip_cons _ _ Hc). cbn [startswith]. now rewrite IH.
  - apply Ascii.eqb_neq in N.
    assert (R : rstrip (String a x) = "" \/ exists r, rstrip (String a x) = String a r).
    { cbn [rstrip]. destruct (rstrip x); [destruct (is_space a) |]; eauto. }
    destruct R as [-> | [r ->]]; cbn [startswith]; now rewrite N.
Qed.

(** The tests see the stripped line as they see the line. *)
Lemma match_line_starts_strip kws l :
  kws <> [] -> forallb plain_word kws = true ->
  match_ (line_starts kws) (strip l) = match_ (line_starts kws) l.
Proof.
  intros Hne Hp. rewrite !match_line_starts by assumption.
  rewrite lstrip_strip. unfold strip.
  induction kws as [| kw kws IH]; [reflexivity |].
  cbn [existsb forallb] in *. apply andb_prop in Hp as [H1 H2].
  unfold plain_word in H1. apply andb_prop in H1 as [_ H1].
  rewrite (startswith_rstrip _ _ H1). f_equal.
  destruct kws; [reflexivity | apply IH; [discriminate | exact H2]].
Qed.

Lemma match_line_starts_indent kws l :
  kws <> [] -> forallb plain_word kws = true ->
  match_ (line_starts kws) ("    " +:+ l) = match_ (line_starts kws) l.
Proof. intros Hne Hp. now rewrite !match_line_starts by assumption. Qed.

(** [_fix_python_indentation] is idempotent. *)
Lemma indentation_fix_idempotent l :
  _fix_python_indentation (_fix_python_indentation l) = _fix_python_indentation l.
Proof.
  rewrite (indentation_fix l).
  destruct (strip l) as [| a st] eqn:S; [now rewrite indentation_fix, S |].
  assert (Hb : forall x, match_ (line_starts keywords_block) ("    " +:+ x)
                         = match_ (line_starts keywords_block) x)
    by (intros; now apply match_line_starts_indent).
  assert (Hc : forall x, match_ (line_starts keywords_continue) ("    " +:+ x)
                         = match_ (line_starts keywords_continue) x)
    by (intros; now apply match_line_starts_indent).
  pose proof (match_line_starts_strip keywords_block l) as Sb.
  pose proof (match_line_starts_strip keywords_continue l) as Sc.
  pose proof (strip_idempotent l) as Si.
  assert (Sj : strip ("    " +:+ strip l) = strip l).
  { unfold strip at 1. change (lstrip ("    " +:+ strip l)) with (lstrip (strip l)).
    rewrite lstrip_strip. unfold strip. apply rstrip_idempotent. }
  rewrite S in Sb, Sc, Si, Sj.
  specialize (Sb ltac:(discriminate) eq_refl).
  specialize (Sc ltac:(discriminate) eq_refl).
  destruct (match_ (line_starts keywords_block) l) eqn:B; cbv beta iota zeta.
  - rewrite indentation_fix, Sj, Hb, Sb. reflexivity.
  - destruct (match_ (line_starts keywords_continue) l) eqn:C; cbv beta iota zeta.
    + rewrite indentation_fix, Si, Sb, Sc. reflexivity.
    + rewrite indentation_fix, Sj, Hb, Hc, Sb, Sc. reflexivity.
Qed.

(** indentation settles on its own output. *)
Lemma indentation_settles l :
  settles_on_own_output l ("indentation", indentation) = true.
Proof.
  unfold settles_on_own_output. cbn [snd].
  destruct (search (pattern indentation) l); [| reflexivity].
  cbn [fix_ indentation]. now rewrite indentation_fix_idempotent, String.eqb_refl, orb_true_r.
Qed.

(** Every Python rule settles on its own output, on every line. *)
Lemma python_rules_settle l :
  has_char LF l = false ->
  forallb (settles_on_own_output l) (rules_of "python") = true.
Proof.
  intros Hlf. change (rules_of "python")
    with [("missing_colon", missing_colon);
          ("print_parentheses", print_parentheses);
          ("indentation", indentation)].
  cbn [forallb].
  now rewrite missing_colon_settles, (print_parentheses_settles _ Hlf), indentation_settles.
Qed.

(** C4 (as stated) fails. Every Python rule settles on its own output, on
    every line: run again on what it returned, it changes nothing. Yet on
    the content [if x > 0] the first run returns the re-indented line
    without the colon, the indentation rule having overwritten the colon
    fix, and a second run on that text applies one more fix. *)
Lemma second_run_applies_further_fix :
  (forall line, has_char LF line = false ->
     forallb (settles_on_own_output line) (rules_of "python") = true) /\
  let first := analyze_syntax_errors ∅ "if x > 0" "python" in
  let second := analyze_syntax_errors (snd first) (snd (fst first)) "python" in
  snd (fst first) = "    if x > 0" /\
  fst second =
  ([ "Line 1: Missing colon"; "Line 1: Indentation error";
     "Fixed missing_colon on line 1" ],
   "    if x > 0:").
Proof.
  split; [exact python_rules_settle |]. vm_compute. split; reflexivity.
Qed.

(** ** Further observations *)

(** The split of the engine's log into halves assumes as many fixes as
    issues. For a Go import line the engine logs one issue and no fix; the
    result then lists no issue and files the issue entry as a fix. *)
Example issue_filed_as_fix :
  let r := fst (fix_file_content (init bare_shell) 0 1 "main.go" import_fmt) in
  fst (analyze_syntax_errors ∅ import_fmt "go") = (["Line 1: Unused import"], import_fmt) /\
  original_errors r = [] /\
  fixes_applied r = ["Line 1: Unused import"] /\
  success r = true.
Proof. vm_compute. repeat split. Qed.

(** A file the walk keeps has a known language, whatever its content. *)
Lemma eligible_known e content :
  eligible e = true -> detected (entry_path e) content <> "unknown".
Proof.
  unfold eligible, detected, LanguageDetector.detect_language.
  intros H. do 3 (apply andb_prop in H as [H _]).
  apply andb_prop in H as [_ H]. unfold mem, supported_extensions in H.
  cbn [existsb] in H.
  repeat (apply orb_prop in H as [H | H];
          [apply String.eqb_eq in H; rewrite H; discriminate |]).
  discriminate.
Qed.

(** The batch path updates the statistics once per file it could read. *)
Lemma gather_prepare_counts clock files : forall self,
  forallb eligible files = true ->
  files_processed (stats (snd (gather (snd (prepare clock files)) self)))
  = (files_processed (stats self) + length (List.filter readable files))%nat.
Proof.
  induction files as [| f files IH]; intros self He.
  - cbn. lia.
  - cbn [forallb] in He. apply andb_prop in He as [Hf He].
    cbn [prepare List.filter]. unfold readable at 1.
    destruct (prepare clock files) as [results tasks] eqn:P. cbn [snd] in IH.
    destruct (read_text f) as [content | e]; cbn [snd].
    + cbn [gather].
      rewrite (fix_file_content_known self _ _ _ _ (eligible_known f content Hf)).
      match goal with
      | |- context [gather tasks ?s] =>
          specialize (IH s He); destruct (gather tasks s) as [rs self'']
      end.
      cbn [snd stats update_stats files_processed length] in *. lia.
    + now apply IH.
Qed.

Lemma discover_eligible fs repo_path : forallb eligible (discover fs repo_path) = true.
Proof.
  unfold discover. induction (rglob fs (Paths.str repo_path)) as [| e l IH];
    cbn; [reflexivity |].
  destruct (eligible e) eqn:E; cbn; [now rewrite E |]. exact IH.
Qed.

(** After [fix_repository] on an existing root, [files_processed] has grown
    by the number of discovered files that could be read. *)
Lemma fix_repository_counts self fs clock repo_path :
  path_exists fs (Paths.str repo_path) = true ->
  files_processed (stats (snd (fix_repository self fs clock repo_path)))
  = (files_processed (stats self)
     + length (List.filter readable (discover fs repo_path)))%nat.
Proof.
  intros He. unfold fix_repository. rewrite He. cbn [negb].
  pose proof (discover_eligible fs repo_path) as D.
  pose proof (gather_prepare_counts clock (discover fs repo_path) self D) as G.
  destruct (discover fs repo_path) as [| f files]; [cbn; lia |].
  destruct (prepare clock (f :: files)) as [results tasks]. cbn [snd] in G.
  destruct tasks as [| t tasks].
  - cbn in G. cbn [snd]. exact G.
  - destruct (gather (t :: tasks) self) as [completed self']. exact G.
Qed.

Lemma fix_repository_counts_sample :
  files_processed
    (stats (snd (fix_repository (init bare_shell) sample_fs sample_clock "repo")))
  = 1%nat.
Proof.
  rewrite (fix_repository_counts (init bare_shell) sample_fs sample_clock "repo").
  - vm_compute. reflexivity.
  - vm_compute. reflexivity.
Defined.

(** The transform of gofmt_spacing on a line without line feed returns the
    normal form of the line, and returns a normal form as it is: run on
    its own output the rule changes nothing. *)
Lemma gofmt_spacing_settles l :
  has_char LF l = false ->
  fix_ gofmt_spacing l = Returned (respace l) /\
  fix_ gofmt_spacing (respace l) = Returned (respace l).
Proof.
  intros Hlf. cbn [gofmt_spacing fix_]. split.
  - now rewrite sub_brace.
  - rewrite sub_brace by now apply respace_one_line.
    now rewrite respace_idempotent.
Qed.

Lemma gofmt_spacing_settles_sample :
  fix_ gofmt_spacing "func  run   {  " = Returned (respace "func  run   {  ") /\
  fix_ gofmt_spacing (respace "func  run   {  ")
  = Returned (respace "func  run   {  ").
Proof.
  apply (gofmt_spacing_settles "func  run   {  "). reflexivity.
Defined.

(** [_fix_python_indentation] applied to its own output returns it as it
    is. *)
Lemma indentation_idempotent l :
  _fix_python_indentation (_fix_python_indentation l) = _fix_python_indentation l.
Proof. exact (indentation_fix_idempotent l). Qed.

(** The pattern of missing_colon never matches what its transform
    returns. *)
Lemma missing_colon_never_rematches l :
  match fix_ missing_colon l with
  | Returned out => search (pattern missing_colon) out = false
  | Raised _ => False
  end.
Proof. cbn [fix_ missing_colon]. exact (missing_colon_quiet l). Qed.

(** ** The range of the language detector *)

Import Notions.

Lemma lookup_In {V : Type} key (d : list (string * V)) v :
  LanguageDetector.lookup key d = Some v -> In v (List.map snd d).
Proof.
  induction d as [| [k w] d IH]; cbn; [discriminate |].
  destruct (String.eqb k key).
  - intros H. injection H as ->. now left.
  - intros H. right. now apply IH.
Qed.

Lemma detect_by_content_In d content lang :
  LanguageDetector.detect_by_content d content = Some lang ->
  In lang (List.map fst d).
Proof.
  induction d as [| [k ps] d IH]; cbn; [discriminate |].
  match goal with |- context [if ?b then _ else _] => destruct b end.
  - intros H. injection H as ->. now left.
  - intros H. right. now apply IH.
Qed.

(** Whatever the path and the content, the detector answers with a tag of
    [tool_mapping] or with "unknown"; when the extension is not in its
    table, the answer is one of the five languages with content
    signatures, or "unknown". *)
Theorem detect_language_range path content :
  match LanguageDetector.lookup (lower (Paths.suffix path))
          LanguageDetector.extension_map with
  | Some lang =>
      LanguageDetector.detect_language path content = lang /\
      In lang language_tags
  | None =>
      In (LanguageDetector.detect_language path content)
         ["python"; "javascript"; "go"; "rust"; "java"; "unknown"]
  end.
Proof.
  unfold LanguageDetector.detect_language.
  destruct (LanguageDetector.lookup _ LanguageDetector.extension_map) as [lang |] eqn:E.
  - split; [reflexivity |]. apply lookup_In in E. cbn in E. unfold language_tags.
    cbn. intuition.
  - destruct content as [[| c text] |]; [cbn; intuition | | cbn; intuition].
    destruct (LanguageDetector.detect_by_content
                LanguageDetector.content_patterns (String c text))
      as [lang |] eqn:D.
    + apply detect_by_content_In in D. cbn in D. cbn. intuition.
    + cbn. intuition.
Qed.

(** The languages other than Python have no tool. *)
Lemma tools_of_other lang :
  lang <> "python" ->
  default [] (LanguageDetector.lookup lang tool_mapping) = [].
Proof.
  intros H. unfold tool_mapping. cbn [LanguageDetector.lookup].
  destruct (String.eqb_spec "python" lang) as [E |]; [now symmetry in E |].
  repeat match goal with
         | |- context [String.eqb ?a lang] => destruct (String.eqb a lang)
         end; reflexivity.
Qed.

(** ** The single-file operation and the shell *)

(** For a file whose language is not Python, the result, the cache and the
    statistics of [fix_file_content] do not depend on the shell: no tool is
    asked. *)
Theorem fix_file_content_without_shell sh1 sh2 cache st t0 t1 path content :
  detected path content <> "python" ->
  let a := fix_file_content (mkFixer sh1 cache st) t0 t1 path content in
  let b := fix_file_content (mkFixer sh2 cache st) t0 t1 path content in
  fst a = fst b /\
  pattern_cache (snd a) = pattern_cache (snd b) /\
  stats (snd a) = stats (snd b) /\
  tool_used (fst a) <> "ILN_Level3_with_shell".
Proof.
  intros Hpy. cbv zeta.
  destruct (String.eqb_spec (detected path content) "unknown") as [U | K].
  - rewrite !(fix_file_content_unknown _ _ _ _ _ U). cbn. repeat split. discriminate.
  - rewrite !(fix_file_content_known _ _ _ _ _ K). cbv zeta.
    cbn [shell_champion pattern_cache stats fst snd].
    rewrite (tools_of_other _ Hpy). cbn [try_tools fst snd tool_used].
    repeat split. discriminate.
Qed.

Lemma fix_file_content_without_shell_witness :
  let a := fix_file_content (init bare_shell) 0 1 "main.go" "func  run   {" in
  let b := fix_file_content (init rewriting_shell) 0 1 "main.go" "func  run   {" in
  fst a = fst b /\
  pattern_cache (snd a) = pattern_cache (snd b) /\
  stats (snd a) = stats (snd b) /\
  tool_used (fst a) <> "ILN_Level3_with_shell".
Proof.
  apply (fix_file_content_without_shell bare_shell rewriting_shell ∅
           (mkStats 0 0 0 0) 0 1 "main.go" "func  run   {").
  vm_compute. discriminate.
Defined.

(** The languages without rules: the analyzer passes the text through. *)
Lemma analyze_syntax_errors_no_rules cache content language :
  LanguageDetector.lookup language fix_patterns = None ->
  analyze_syntax_errors cache content language = (([], content), cache).
Proof. intros H. unfold analyze_syntax_errors. now rewrite H. Qed.

(** A file of a language that has neither rules nor tools (TypeScript,
    Rust, Java, C++, C) is always reported as a success with no issue and
    no fix, whatever it contains; the cache is left as it was. *)
Theorem fix_file_content_no_rules self t0 t1 path content :
  In (detected path content) ["typescript"; "rust"; "java"; "cpp"; "c"] ->
  let r := fst (fix_file_content self t0 t1 path content) in
  original_errors r = [] /\
  fixes_applied r = [] /\
  success r = true /\
  tool_used r = "ILN_Level3_internal" /\
  pattern_cache (snd (fix_file_content self t0 t1 path content))
  = pattern_cache self.
Proof.
  intros H. cbv zeta.
  assert (K : detected path content <> "unknown").
  { intros E. rewrite E in H. cbn in H. intuition discriminate. }
  rewrite (fix_file_content_known _ _ _ _ _ K). cbv zeta.
  assert (R : LanguageDetector.lookup (detected path content) fix_patterns = None
              /\ detected path content <> "python").
  { cbn in H. destruct H as [<- | [<- | [<- | [<- | [<- | []]]]]];
      (split; [reflexivity | discriminate]). }
  destruct R as [R P].
  rewrite (analyze_syntax_errors_no_rules _ _ _ R), (tools_of_other _ P).
  cbn. auto.
Qed.

Lemma fix_file_content_no_rules_witness :
  let r := fst (fix_file_content (init bare_shell) 0 1 "lib.rs" "fn main( {") in
  original_errors r = [] /\
  fixes_applied r = [] /\
  success r = true /\
  tool_used r = "ILN_Level3_internal" /\
  pattern_cache (snd (fix_file_content (init bare_shell) 0 1 "lib.rs" "fn main( {"))
  = pattern_cache (init bare_shell).
Proof.
  apply (fix_file_content_no_rules (init bare_shell) 0 1 "lib.rs" "fn main( {").
  vm_compute. auto.
Defined.

(** ** Python files and the formatters *)

Lemma try_tools_unavailable sh path content : forall tools errs,
  (forall tool, In tool tools ->
                default false (available_tools sh !! tool) = false) ->
  try_tools sh path tools content errs =
  (false, content,
   errs ++ List.map (fun tool => "Tool " +:+ tool +:+ " not available") tools).
Proof.
  induction tools as [| tool tools IH]; intros errs H; cbn [try_tools List.map].
  - now rewrite app_nil_r.
  - unfold execute_tool. rewrite (H tool) by now left. cbn [negb].
    rewrite IH by (intros t Ht; apply H; now right).
    now rewrite <- app_assoc.
Qed.

Lemma half_rest n : (0 <? n - n / 2)%nat = negb (n =? 0)%nat.
Proof.
  destruct n as [| n]; [reflexivity |].
  assert (S n / 2 < S n)%nat by (apply Nat.div_lt; lia).
  cbn [Nat.eqb negb]. apply Nat.ltb_lt. lia.
Qed.

(** On a machine where none of the three formatters is available, a
    Python file gets the three diagnostics "Tool ... not available" after
    the first half of the engine's log; it is reported as a success exactly
    when the engine logged something, so a file on which no rule matches
    is reported as a failure. *)
Theorem python_without_tools self t0 t1 path content :
  detected path content = "python" ->
  (forall tool, In tool python_tools ->
     default false (available_tools (shell_champion self) !! tool) = false) ->
  let log := fst (fst (analyze_syntax_errors (pattern_cache self) content "python")) in
  let r := fst (fix_file_content self t0 t1 path content) in
  original_errors r =
    firstn (length log / 2) log ++
    ["Tool black not available"; "Tool autopep8 not available";
     "Tool isort not available"] /\
  fixes_applied r = skipn (length log / 2) log /\
  success r = negb (length log =? 0)%nat /\
  tool_used r = "ILN_Level3_internal".
Proof.
  intros Hpy Hno. cbv zeta.
  assert (K : detected path content <> "unknown") by (rewrite Hpy; discriminate).
  rewrite (fix_file_content_known _ _ _ _ _ K). cbv zeta. rewrite Hpy.
  change (default [] (LanguageDetector.lookup "python" tool_mapping))
    with python_tools.
  rewrite (try_tools_unavailable _ _ _ _ _ Hno).
  cbn [fst snd original_errors fixes_applied success tool_used app List.map
       python_tools].
  rewrite app_nil_r. repeat split.
  rewrite length_app, length_skipn. cbn [length].
  rewrite half_rest.
  replace (_ + 3 =? 0)%nat with false by (symmetry; apply Nat.eqb_neq; lia).
  now rewrite orb_false_r.
Qed.

Lemma python_without_tools_witness :
  let log := fst (fst (analyze_syntax_errors ∅ "" "python")) in
  let r := fst (fix_file_content (init bare_shell) 0 1 "empty.py" "") in
  original_errors r =
    firstn (length log / 2) log ++
    ["Tool black not available"; "Tool autopep8 not available";
     "Tool isort not available"] /\
  fixes_applied r = skipn (length log / 2) log /\
  success r = negb (length log =? 0)%nat /\
  tool_used r = "ILN_Level3_internal".
Proof.
  apply (python_without_tools (init bare_shell) 0 1 "empty.py" "").
  - reflexivity.
  - intros tool _. reflexivity.
Defined.

Lemma try_tools_success sh path content : forall tools errs,
  existsb (fun tool => fst (fst (execute_tool sh tool path content))) tools = true ->
  fst (fst (try_tools sh path tools content errs)) = true.
Proof.
  induction tools as [| tool tools IH]; intros errs; cbn [existsb try_tools];
    [discriminate |].
  destruct (execute_tool sh tool path content) as [[ok fixed] es]. cbn [fst].
  destruct ok; [reflexivity |]. cbn [orb]. apply IH.
Qed.

(** When one of the three formatters succeeds on the text the engine
    returns for a Python file, the file is reported as a success, its last
    fix is "Applied external tool formatting" and the result is labelled
    with_shell. *)
Theorem python_formatter_success self t0 t1 path content :
  detected path content = "python" ->
  let corrected :=
    snd (fst (analyze_syntax_errors (pattern_cache self) content "python")) in
  existsb (fun tool =>
             fst (fst (execute_tool (shell_champion self) tool path corrected)))
    python_tools = true ->
  let r := fst (fix_file_content self t0 t1 path content) in
  success r = true /\
  tool_used r = "ILN_Level3_with_shell" /\
  exists front, fixes_applied r = front ++ ["Applied external tool formatting"].
Proof.
  intros Hpy corrected Hok. cbv zeta.
  assert (K : detected path content <> "unknown") by (rewrite Hpy; discriminate).
  rewrite (fix_file_content_known _ _ _ _ _ K). cbv zeta. rewrite Hpy.
  change (default [] (LanguageDetector.lookup "python" tool_mapping))
    with python_tools.
  fold corrected. rewrite (try_tools_success _ _ _ _ [] Hok).
  cbn [fst snd original_errors fixes_applied success tool_used].
  repeat split.
  - rewrite length_app. cbn [length]. apply orb_true_iff. left.
    apply Nat.ltb_lt. lia.
  - eexists. reflexivity.
Qed.

Lemma python_formatter_success_witness :
  let r := fst (fix_file_content (init formatting_shell) 0 1 "a.py" "x = 1") in
  success r = true /\
  tool_used r = "ILN_Level3_with_shell" /\
  exists front, fixes_applied r = front ++ ["Applied external tool formatting"].
Proof.
  apply (python_formatter_success (init formatting_shell) 0 1 "a.py" "x = 1");
    reflexivity.
Defined.

Lemma execute_tool_same_outcome sh1 sh2 tool path content :
  available_tools sh1 = available_tools sh2 ->
  (forall p c, write_temp sh1 p c = write_temp sh2 p c) ->
  (forall t p c, same_outcome (communicate sh1 t p c) (communicate sh2 t p c)) ->
  fst (fst (execute_tool sh1 tool path content))
  = fst (fst (execute_tool sh2 tool path content)) /\
  snd (execute_tool sh1 tool path content)
  = snd (execute_tool sh2 tool path content).
Proof.
  intros Ha Hw Hc. unfold execute_tool. rewrite Ha, Hw.
  destruct (negb _); [now split |].
  destruct (write_temp sh2 path content); [now split |].
  destruct (negb _); [now split |].
  specialize (Hc tool path content).
  destruct (communicate sh1 tool path content) as [| e1 | rc1 err1 [f1 |]],
           (communicate sh2 tool path content) as [| e2 | rc2 err2 [f2 |]];
    cbn in Hc; try contradiction; try (now split).
  all: try (now subst).
  all: destruct Hc as (-> & -> & [H1 H2]); try (now split).
  - now specialize (H2 eq_refl).
  - now specialize (H1 eq_refl).
Qed.

Lemma try_tools_same_outcome sh1 sh2 path content :
  available_tools sh1 = available_tools sh2 ->
  (forall p c, write_temp sh1 p c = write_temp sh2 p c) ->
  (forall t p c, same_outcome (communicate sh1 t p c) (communicate sh2 t p c)) ->
  forall tools errs,
  fst (fst (try_tools sh1 path tools content errs))
  = fst (fst (try_tools sh2 path tools content errs)) /\
  snd (try_tools sh1 path tools content errs)
  = snd (try_tools sh2 path tools content errs).
Proof.
  intros Ha Hw Hc.
  induction tools as [| tool tools IH]; intros errs; cbn [try_tools]; [now split |].
  destruct (execute_tool_same_outcome sh1 sh2 tool path content Ha Hw Hc) as [E1 E2].
  destruct (execute_tool sh1 tool path content) as [[ok1 f1] es1],
           (execute_tool sh2 tool path content) as [[ok2 f2] es2].
  cbn [fst snd] in E1, E2. subst ok2 es2.
  destruct ok1; [now split | apply IH].
Qed.

(** The text a formatter leaves in the temporary file is never used: two
    machines whose formatters end alike (same availability, same return
    codes and diagnostics) but write other texts give the same result and
    the same statistics. *)
Theorem formatter_text_discarded sh1 sh2 cache st t0 t1 path content :
  available_tools sh1 = available_tools sh2 ->
  (forall p c, write_temp sh1 p c = write_temp sh2 p c) ->
  (forall t p c, same_outcome (communicate sh1 t p c) (communicate sh2 t p c)) ->
  let a := fix_file_content (mkFixer sh1 cache st) t0 t1 path content in
  let b := fix_file_content (mkFixer sh2 cache st) t0 t1 path content in
  fst a = fst b /\
  pattern_cache (snd a) = pattern_cache (snd b) /\
  stats (snd a) = stats (snd b).
Proof.
  intros Ha Hw Hc. cbv zeta.
  destruct (String.eqb_spec (detected path content) "unknown") as [U | K].
  - rewrite !(fix_file_content_unknown _ _ _ _ _ U). cbn. auto.
  - rewrite !(fix_file_content_known _ _ _ _ _ K). cbv zeta.
    cbn [shell_champion pattern_cache stats fst snd].
    match goal with
    | |- context [try_tools sh1 path ?tools ?c []] =>
        destruct (try_tools_same_outcome sh1 sh2 path c Ha Hw Hc tools [])
          as [E1 E2]
    end.
    rewrite E1, E2. auto.
Qed.

Lemma formatter_text_discarded_witness :
  let a := fix_file_content (init formatting_shell) 0 1 "a.py" "x = 1" in
  let b := fix_file_content (init rewriting_shell) 0 1 "a.py" "x = 1" in
  fst a = fst b /\
  pattern_cache (snd a) = pattern_cache (snd b) /\
  stats (snd a) = stats (snd b).
Proof.
  apply (formatter_text_discarded formatting_shell rewriting_shell ∅
           (mkStats 0 0 0 0) 0 1 "a.py" "x = 1").
  - reflexivity.
  - reflexivity.
  - intros t p c. cbn. repeat split; discriminate.
Defined.

(** ** When a file is reported as a success *)

(** A file of a known language other than Python is always reported as a
    success, and so is a Python file for which the engine logged anything:
    the second half of a non-empty log is never empty, and it is returned
    as the fixes. *)
Theorem fix_file_content_success_cases self t0 t1 path content :
  detected path content <> "unknown" ->
  let log :=
    fst (fst (analyze_syntax_errors (pattern_cache self) content
                (detected path content))) in
  detected path content <> "python" \/ log <> [] ->
  success (fst (fix_file_content self t0 t1 path content)) = true.
Proof.
  intros K log H. rewrite (fix_file_content_known _ _ _ _ _ K). cbv zeta.
  cbn [fst success]. fold log.
  destruct log as [| entry rest] eqn:L.
  - destruct H as [P | N]; [| congruence].
    rewrite (tools_of_other _ P). reflexivity.
  - apply orb_true_iff. left. rewrite length_app, length_skipn.
    apply Nat.ltb_lt.
    pose proof (half_rest (length (entry :: rest))) as R.
    cbn [length Nat.eqb negb] in R. apply Nat.ltb_lt in R. cbn [length]. lia.
Qed.

Lemma fix_file_content_success_cases_witness :
  success (fst (fix_file_content (init bare_shell) 0 1 "app.js" "a === b;")) = true.
Proof.
  apply (fix_file_content_success_cases (init bare_shell) 0 1 "app.js" "a === b;").
  - vm_compute. discriminate.
  - left. vm_compute. discriminate.
Defined.

(** ** The analyzer: cache, log and text *)

(** A second call with the same content and language returns what the
    first call returned and leaves the cache as the first call left it. *)
Theorem analyze_syntax_errors_repeat cache content language :
  let first := analyze_syntax_errors cache content language in
  analyze_syntax_errors (snd first) content language = (fst first, snd first).
Proof.
  cbv zeta. unfold analyze_syntax_errors.
  destruct (LanguageDetector.lookup language fix_patterns) as [patterns |];
    [| reflexivity].
  destruct (cache !! cache_key language content) as [cached |] eqn:E;
    cbn [fst snd].
  - now rewrite E.
  - now rewrite lookup_insert_eq.
Qed.

Lemma line_fixes_le_issues patterns i line :
  (length (line_fixes patterns i line) <= length (line_issues patterns i line))%nat.
Proof.
  induction patterns as [| [name r] patterns IH]; cbn [line_fixes line_issues];
    [lia |].
  destruct (search (pattern r) line); [| exact IH].
  destruct (fix_ r line) as [out | e]; [destruct (String.eqb out line) |];
    cbn [length]; lia.
Qed.

Lemma per_line_fixes_le_issues patterns : forall l i,
  (length (per_line (line_fixes patterns) i l)
   <= length (per_line (line_issues patterns) i l))%nat.
Proof.
  induction l as [| line l IH]; intros i; cbn [per_line]; [lia |].
  rewrite !length_app. pose proof (line_fixes_le_issues patterns i line).
  specialize (IH (S i)). lia.
Qed.

(** The engine never logs more fixes than issues, so the first half of its
    log, which [fix_file_content] reports as the issues, holds issue
    entries only: it is a prefix of the list of issues. *)
Theorem analyze_first_half_issues patterns content :
  let log := fst (analyze patterns content) in
  let issues := per_line (line_issues patterns) 0 (split LF content) in
  (length log / 2 <= length issues)%nat /\
  firstn (length log / 2) log = firstn (length log / 2) issues.
Proof.
  cbv zeta. rewrite analyze_unfold. cbn [fst].
  pose proof (per_line_fixes_le_issues patterns (split LF content) 0) as H.
  set (issues := per_line (line_issues patterns) 0 (split LF content)) in *.
  set (fixes := per_line (line_fixes patterns) 0 (split LF content)) in *.
  assert (L : (length (issues ++ fixes) / 2 <= length issues)%nat).
  { rewrite length_app. apply Nat.Div0.div_le_upper_bound. lia. }
  split; [exact L |].
  rewrite firstn_app.
  replace (length (issues ++ fixes) / 2 - length issues)%nat with 0%nat by lia.
  cbn [firstn]. now rewrite app_nil_r.
Qed.

(** The text the Go rules return: each line with the blanks around its
    final opening brace normalised, the lines joined as they were split. *)
Theorem go_corrected_text content :
  snd (analyze (rules_of "go") content)
  = join (String LF "") (List.map respace (split LF content)).
Proof.
  rewrite analyze_unfold. cbn [snd]. f_equal.
  apply map_ext_in. intros line Hin.
  apply go_final_line.
  exact (proj1 (List.Forall_forall _ _) (split_one_line content) line Hin).
Qed.

(** ** The indentation transform, case by case *)

Lemma indentation_keywords s :
  (if existsb (fun kw => startswith kw s) keywords_block then true
   else negb (existsb (fun kw => startswith kw s) keywords_continue))
  = negb (existsb (fun kw => startswith kw s) ["elif"; "else"]).
Proof.
  unfold keywords_block, keywords_continue.
  destruct s as [| a [| b s]]; [reflexivity | |].
  - cbn. split_eqb; try reflexivity; try congruence.
  - cbn [existsb startswith]. split_eqb; try congruence;
      repeat match goal with
             | |- context [if ?b then _ else _] => destruct b; cbn
             end; try reflexivity; try congruence.
Qed.

(** What [_fix_python_indentation] returns: a blank line as it is; a line
    that starts, after its blanks, with elif or else stripped, at column
    0; every other line stripped and indented by four spaces. The lines
    that start with except or finally are among the latter. *)
Theorem indentation_by_cases line :
  _fix_python_indentation line =
  if String.eqb (strip line) "" then line
  else if existsb (fun kw => startswith kw (lstrip line)) ["elif"; "else"]
       then strip line
       else "    " +:+ strip line.
Proof.
  rewrite indentation_fix.
  destruct (strip line) as [| a s] eqn:E; [reflexivity |].
  cbn [String.eqb].
  rewrite !match_line_starts by (reflexivity || discriminate).
  pose proof (indentation_keywords (lstrip line)) as K.
  set (block := existsb _ keywords_block) in *.
  set (continue := existsb _ keywords_continue) in *.
  set (lower := existsb _ ["elif"; "else"]) in *.
  destruct block, continue, lower; cbn [negb] in K; try discriminate; reflexivity.
Qed.

(** ** The corrected text keeps the lines of the input *)

Lemma has_char_take c : forall n s,
  has_char c s = false -> has_char c (Text.take n s) = false.
Proof.
  induction n as [| n IH]; intros [| a s]; cbn; try reflexivity.
  intros H. apply orb_false_elim in H as [-> H]. cbn. now apply IH.
Qed.

Lemma has_char_rstrip c : forall s,
  has_char c s = false -> has_char c (rstrip s) = false.
Proof.
  induction s as [| a s IH]; cbn [rstrip]; [reflexivity |].
  intros H. cbn in H. apply orb_false_elim in H as [Ha H]. specialize (IH H).
  destruct (rstrip s); [destruct (is_space a) |]; cbn; rewrite ?Ha; auto.
Qed.

Lemma has_char_strip c s : has_char c s = false -> has_char c (strip s) = false.
Proof.
  intros H. unfold strip. apply has_char_rstrip. rewrite lstrip_skip_while.
  now apply has_char_skip_while.
Qed.

(** Captures free of a character. *)
Lemma group_free c n : forall g,
  Forall (fun e : nat * string => has_char c (snd e) = false) g ->
  has_char c (group n g) = false.
Proof.
  induction g as [| [m s] g IH]; intros F; cbn [group]; [reflexivity |].
  inversion F; subst. destruct (m =? n)%nat; auto.
Qed.

(** On a subject free of a character, the matcher hands its continuation a
    remainder and captures free of it. *)
Lemma run_free A m c r :
  forall prev s g (k : option ascii -> string -> captures -> option A) x,
  has_char c s = false ->
  Forall (fun e : nat * string => has_char c (snd e) = false) g ->
  run m r prev s g k = Some x ->
  exists p' s' g',
    has_char c s' = false /\
    Forall (fun e : nat * string => has_char c (snd e) = false) g' /\
    k p' s' g' = Some x.
Proof.
  induction r as [| t | cs | cs | cs | cs | | | n r IH | r1 IH1 r2 IH2 | r1 IH1 r2 IH2];
    intros prev s g k x Hs Hg; cbn [run].
  - intros H. now exists prev, s, g.
  - destruct (lit t prev s) as [[p' s'] |] eqn:E; [| discriminate].
    intros H. exists p', s', g. repeat split; auto.
    apply lit_inv in E. subst s. now apply has_char_suffix in Hs.
  - destruct s as [| a s]; [discriminate |].
    destruct (cset_match cs a); [| discriminate].
    intros H. exists (Some a), s, g. repeat split; auto.
    exact (has_char_tail _ _ _ Hs).
  - intros H. destruct (star_inv _ _ _ _ _ _ H) as (u & s' & p' & -> & _ & Hk).
    exists p', s', g. repeat split; auto. now apply has_char_suffix in Hs.
  - destruct s as [| a s]; [discriminate |].
    destruct (cset_match cs a); [| discriminate].
    intros H. destruct (star_inv _ _ _ _ _ _ H) as (u & s' & p' & -> & _ & Hk).
    exists p', s', g. repeat split; auto.
    apply has_char_tail in Hs. now apply has_char_suffix in Hs.
  - destruct s as [| a s].
    + intros H. now exists prev, "", g.
    + destruct (cset_match cs a).
      * destruct (k (Some a) s g) as [y |] eqn:E.
        -- intros H. injection H as ->. exists (Some a), s, g.
           repeat split; auto. exact (has_char_tail _ _ _ Hs).
        -- intros H. now exists prev, (String a s), g.
      * intros H. now exists prev, (String a s), g.
  - destruct (at_bol m prev); [| discriminate].
    intros H. now exists prev, s, g.
  - destruct (at_eol m s); [| discriminate].
    intros H. now exists prev, s, g.
  - intros H. destruct (IH _ _ _ _ _ Hs Hg H) as (p' & s' & g' & Hs' & Hg' & Hk).
    exists p', s', ((n, consumed s s') :: g'). repeat split; auto.
    constructor; [| exact Hg']. cbn [snd]. unfold consumed.
    now apply has_char_take.
  - destruct (run m r1 prev s g k) as [y |] eqn:E.
    + intros H. injection H as ->. exact (IH1 _ _ _ _ _ Hs Hg E).
    + intros H. exact (IH2 _ _ _ _ _ Hs Hg H).
  - intros H. destruct (IH1 _ _ _ _ _ Hs Hg H) as (p1 & s1 & g1 & Hs1 & Hg1 & H1).
    exact (IH2 _ _ _ _ _ Hs1 Hg1 H1).
Qed.

Lemma match_here_free m c r prev s mm :
  has_char c s = false ->
  match_here m r prev s = Some mm ->
  Forall (fun e : nat * string => has_char c (snd e) = false) (groups mm).
Proof.
  intros Hs H. unfold match_here in H.
  destruct (run_free _ m c r prev s [] _ mm Hs (List.Forall_nil _) H)
    as (p' & s' & g' & _ & Hg & Hk).
  injection Hk as <-. exact Hg.
Qed.

Lemma expand_free c g :
  Forall (fun e : nat * string => has_char c (snd e) = false) g ->
  forall t,
  Forall (fun p => match p with Text s => has_char c s = false | Ref _ => True end) t ->
  has_char c (expand t g) = false.
Proof.
  intros Hg. induction t as [| [s | n] t IH]; intros F; cbn [expand];
    [reflexivity | |]; inversion F; subst; rewrite has_char_append.
  - now rewrite H1, IH.
  - now rewrite (group_free c n g Hg), IH.
Qed.

(** A substitution whose template is free of a character yields, from a
    subject free of it, a text free of it. *)
Lemma sub_from_free m c r t :
  Forall (fun p => match p with Text s => has_char c s = false | Ref _ => True end) t ->
  forall s prev skip,
  has_char c s = false -> has_char c (sub_from m r t prev s skip) = false.
Proof.
  intros Ht. induction s as [| a s IH]; intros prev skip Hs.
  - destruct skip; cbn [sub_from]; [| reflexivity].
    destruct (match_here m r prev "") as [mm |] eqn:E; [| reflexivity].
    rewrite has_char_append, (expand_free c _ (match_here_free _ _ _ _ _ _ Hs E) t Ht).
    reflexivity.
  - pose proof Hs as Hs'. cbn in Hs'. apply orb_false_elim in Hs' as [Ha Hs'].
    destruct skip as [| n]; cbn [sub_from]; [| now apply IH].
    destruct (match_here m r prev (String a s)) as [mm |] eqn:E.
    + rewrite has_char_append, (expand_free c _ (match_here_free _ _ _ _ _ _ Hs E) t Ht).
      cbn [orb]. destruct (String.length (matched mm)); cbn [has_char];
        rewrite ?Ha; cbn [orb]; now apply IH.
    + cbn [has_char]. rewrite Ha. cbn [orb]. now apply IH.
Qed.

Lemma sub_free c r t s :
  Forall (fun p => match p with Text s => has_char c s = false | Ref _ => True end) t ->
  has_char c s = false -> has_char c (sub r t s) = false.
Proof. intros Ht Hs. now apply sub_from_free. Qed.

(** Each configured transform returns one line for one line. *)
Lemma configured_rule_one_line language patterns name r line :
  LanguageDetector.lookup language fix_patterns = Some patterns ->
  In (name, r) patterns ->
  has_char LF line = false ->
  exists out, fix_ r line = Returned out /\ has_char LF out = false.
Proof.
  intros L Hin Hl. apply lookup_In in L. cbn in L.
  destruct L as [<- | [<- | [<- | []]]]; cbn in Hin;
    repeat (destruct Hin as [Hin | Hin]; [injection Hin as <- <- |]);
    try contradiction; cbn [fix_ missing_colon print_parentheses indentation
      missing_semicolon var_to_const double_equals unused_import gofmt_spacing];
    eexists; (split; [reflexivity |]).
  - rewrite has_char_append, has_char_rstrip by exact Hl. reflexivity.
  - apply sub_free; [| exact Hl]. repeat constructor.
  - rewrite indentation_fix. pose proof (has_char_strip LF line Hl) as Hs.
    destruct (strip line) as [| a s]; [exact Hl |]. cbv zeta.
    repeat match goal with
           | |- context [if ?b then _ else _] => destruct b
           end; rewrite ?has_char_append, ?Hs; reflexivity.
  - rewrite has_char_append, has_char_rstrip by exact Hl. reflexivity.
  - apply sub_free; [| exact Hl]. repeat constructor.
  - apply sub_free; [| exact Hl]. repeat constructor.
  - exact Hl.
  - apply sub_free; [| exact Hl]. repeat constructor.
Qed.

Lemma changed_one_line language patterns line :
  LanguageDetector.lookup language fix_patterns = Some patterns ->
  has_char LF line = false ->
  forall rules, incl rules patterns ->
  Forall (fun out => has_char LF out = false) (changed rules line).
Proof.
  intros L Hl. induction rules as [| [name r] rules IH]; intros Hincl;
    cbn [changed]; [constructor |].
  assert (Hr : incl rules patterns) by (intros x Hx; apply Hincl; now right).
  destruct (search (pattern r) line); [| now apply IH].
  destruct (configured_rule_one_line language patterns name r line L
              (Hincl _ (or_introl eq_refl)) Hl) as (out & -> & Ho).
  destruct (String.eqb out line); [now apply IH |].
  constructor; [exact Ho | now apply IH].
Qed.

Lemma last_Forall (P : string -> Prop) : forall l d,
  P d -> Forall P l -> P (List.last l d).
Proof.
  induction l as [| x l IH]; intros d Hd F; [exact Hd |].
  inversion F; subst. rewrite last_cons_default. now apply IH.
Qed.

(** For every language, the corrected text splits into as many lines as
    the input, and its line at each position is what the rules make of
    the input's line at that position: no rule joins or breaks lines. *)
Theorem corrected_text_lines language content :
  let corrected := snd (analyze (rules_of language) content) in
  split LF corrected =
  List.map (fun line => List.last (changed (rules_of language) line) line)
    (split LF content) /\
  length (split LF corrected) = length (split LF content).
Proof.
  cbv zeta. rewrite analyze_unfold. cbn [snd].
  assert (E : split LF
                (join (String LF "")
                   (List.map
                      (fun line => List.last (changed (rules_of language) line) line)
                      (split LF content)))
              = List.map
                  (fun line => List.last (changed (rules_of language) line) line)
                  (split LF content)).
  { apply split_join.
    - pose proof (split_nonempty LF content) as N.
      destruct (split LF content); [congruence | discriminate].
    - apply List.Forall_forall. intros out Hout.
      apply in_map_iff in Hout as (line & <- & Hin).
      pose proof (proj1 (List.Forall_forall _ _) (split_one_line content) line Hin)
        as Hl.
      apply last_Forall; [exact Hl |].
      unfold rules_of.
      destruct (LanguageDetector.lookup language fix_patterns) as [patterns |] eqn:L;
        cbn [default]; [| constructor].
      exact (changed_one_line language patterns line L Hl patterns (incl_refl _)). }
  split; [exact E |]. rewrite E. apply length_map.
Qed.

(** ** The batch operation: order of the results, files left out *)

Lemma prepare_unread clock files :
  fst (prepare clock files) = unread_results files.
Proof.
  induction files as [| f files IH]; [reflexivity |].
  cbn [prepare unread_results flat_map].
  destruct (prepare clock files) as [results tasks]. cbn [fst] in IH.
  destruct (read_text f); cbn [fst app]; [exact IH | now f_equal].
Qed.

Lemma gather_readable_paths clock files : forall self,
  List.map file_path (collect (fst (gather (snd (prepare clock files)) self)))
  = List.map entry_path (List.filter readable files).
Proof.
  induction files as [| f files IH]; intros self; [reflexivity |].
  cbn [prepare List.filter]. unfold readable at 1.
  destruct (prepare clock files) as [results tasks]. cbn [snd] in IH.
  destruct (read_text f) as [content | e]; cbn [snd]; [| apply IH].
  cbn [gather].
  pose proof (fix_file_content_path self (fst (clock (entry_path f)))
                (snd (clock (entry_path f))) (entry_path f) content) as P.
  destruct (fix_file_content self _ _ (entry_path f) content) as [r self'].
  specialize (IH self'). destruct (gather tasks self') as [rs self''].
  cbn [fst collect List.map] in *. now rewrite P, IH.
Qed.

(** The results of the batch operation are not in the order of the walk:
    the failures of the files that could not be read come first, in walk
    order, and the results of the files that were read follow, in walk
    order. *)
Theorem fix_repository_order self fs clock repo_path :
  path_exists fs (Paths.str repo_path) = true ->
  discover fs repo_path <> [] ->
  let files := discover fs repo_path in
  exists processed,
    fst (fix_repository self fs clock repo_path)
    = unread_results files ++ processed /\
    List.map file_path processed
    = List.map entry_path (List.filter readable files).
Proof.
  intros He Hd files.
  rewrite (fix_repository_results _ _ _ _ He Hd). fold files.
  rewrite prepare_unread.
  eexists. split; [reflexivity |]. apply gather_readable_paths.
Qed.

Lemma fix_repository_order_witness :
  let files := discover sample_fs "repo" in
  exists processed,
    fst (fix_repository (init bare_shell) sample_fs sample_clock "repo")
    = unread_results files ++ processed /\
    List.map file_path processed
    = List.map entry_path (List.filter readable files).
Proof.
  apply (fix_repository_order (init bare_shell) sample_fs sample_clock "repo").
  - reflexivity.
  - vm_compute. discriminate.
Defined.

Lemma components_app a b :
  Paths.components (a +:+ "/" +:+ b) = Paths.components a ++ Paths.components b.
Proof.
  unfold Paths.components.
  change ("/" +:+ b) with (String Paths.SLASH b).
  now rewrite split_app_sep, List.filter_app.
Qed.

Lemma existsb_parts p s :
  existsb p (Paths.components s) = true -> existsb p (Paths.parts s) = true.
Proof.
  intros H. unfold Paths.parts. destruct (Paths.root s); [exact H |].
  cbn [existsb]. rewrite H. apply orb_true_r.
Qed.

Lemma root_cases s : Paths.root s = "" \/ Paths.root s = "/" \/ Paths.root s = "//".
Proof.
  destruct s as [| a [| b [| c s]]]; cbn [Paths.root]; auto;
    repeat match goal with
           | |- context [if ?b then _ else _] => destruct b
           end; auto.
Qed.

Lemma hidden_component s :
  existsb (startswith_char Paths.DOT) (Paths.parts s) = true ->
  existsb (startswith_char Paths.DOT) (Paths.components s) = true.
Proof.
  unfold Paths.parts. destruct (root_cases s) as [-> | [-> | ->]]; auto.
Qed.

(** A repository reached through a hidden directory or through "..": when
    a component of the root path starts with a dot, every file under it has
    that component in its own path, the walk keeps none, and the operation
    answers "No supported files found" without touching the object. *)
Theorem fix_repository_hidden_root self fs clock repo_path :
  path_exists fs (Paths.str repo_path) = true ->
  existsb (startswith_char Paths.DOT) (Paths.parts (Paths.str repo_path)) = true ->
  (forall e, In e (rglob fs (Paths.str repo_path)) ->
     exists rel, entry_path e = Paths.str repo_path +:+ "/" +:+ rel) ->
  fix_repository self fs clock repo_path
  = ([failure (Paths.str repo_path) "No supported files found"], self).
Proof.
  intros He Hdot Hsub. apply hidden_component in Hdot.
  assert (D : discover fs repo_path = []).
  { unfold discover.
    induction (rglob fs (Paths.str repo_path)) as [| e l IH]; [reflexivity |].
    cbn [List.filter].
    assert (E : eligible e = false).
    { destruct (Hsub e (or_introl eq_refl)) as [rel Hrel].
      assert (P : existsb (startswith_char Paths.DOT)
                    (Paths.parts (entry_path e)) = true).
      { apply existsb_parts. rewrite Hrel, components_app, existsb_app, Hdot.
        reflexivity. }
      unfold eligible. rewrite P. cbn [negb].
      now rewrite andb_false_r. }
    rewrite E. apply IH. intros e' He'. apply Hsub. now right. }
  unfold fix_repository. rewrite He, D. reflexivity.
Qed.

Lemma fix_repository_hidden_root_witness :
  fix_repository (init bare_shell) parent_fs sample_clock "../project"
  = ([failure (Paths.str "../project") "No supported files found"],
     init bare_shell).
Proof.
  apply (fix_repository_hidden_root (init bare_shell) parent_fs sample_clock
           "../project").
  - reflexivity.
  - reflexivity.
  - intros e He. vm_compute in He. destruct He as [<- | []].
    exists "a.py". reflexivity.
Defined.

(** C++ headers named .hpp are in the detector's table, with the tag cpp,
    but not among the extensions of the walk: alone, such a file is
    processed; in a repository it is left out. Every other extension of
    the detector's table is one of the walk. *)
Theorem walk_skips_hpp e content :
  lower (Paths.suffix (entry_path e)) = ".hpp" ->
  detected (entry_path e) content = "cpp" /\
  eligible e = false /\
  forall ext lang,
    In (ext, lang) LanguageDetector.extension_map -> ext <> ".hpp" ->
    mem ext supported_extensions = true.
Proof.
  intros H. repeat split.
  - unfold detected, LanguageDetector.detect_language. now rewrite H.
  - unfold eligible. rewrite H. cbn [mem supported_extensions existsb String.eqb].
    now rewrite andb_false_r.
  - intros ext lang Hin Hne. cbn in Hin.
    repeat (destruct Hin as [Hin | Hin];
            [injection Hin as <- <-; try reflexivity; now elim Hne |]).
    contradiction.
Qed.

Lemma walk_skips_hpp_witness :
  detected "include/list.hpp" "" = "cpp" /\
  eligible (mkDirEntry "include/list.hpp" true (inl "")) = false /\
  forall ext lang,
    In (ext, lang) LanguageDetector.extension_map -> ext <> ".hpp" ->
    mem ext supported_extensions = true.
Proof.
  apply (walk_skips_hpp (mkDirEntry "include/list.hpp" true (inl "")) "").
  reflexivity.
Defined.

(** ** The tools a new shell object knows *)

Lemma lookup_not_key {V : Type} key (d : list (string * V)) :
  ~ In key (List.map fst d) -> LanguageDetector.lookup key d = None.
Proof.
  induction d as [| [k v] d IH]; cbn; [reflexivity |].
  intros H. destruct (String.eqb_spec k key) as [-> | _].
  - elim H. now left.
  - apply IH. intros Hin. apply H. now right.
Qed.

(** The dict the probing loop returns: each probed tool bound to the
    verdict of its probe, the other keys as they were. *)
Lemma probe_tools_lookup run : forall cmds tools tools',
  List.NoDup (List.map fst cmds) ->
  Detection.probe_tools run cmds tools = inl tools' ->
  forall tool,
    tools' !! tool =
    match LanguageDetector.lookup tool cmds with
    | Some cmd =>
        Some match run (Detection.split_blanks cmd) with
             | Detection.Completed returncode => (returncode =? 0)%Z
             | _ => false
             end
    | None => tools !! tool
    end.
Proof.
  induction cmds as [| [t c] cmds IH]; intros tools tools' N H tool.
  - cbn in H. now injection H as <-.
  - cbn [List.map fst] in N. inversion N as [| ? ? Hnot N']; subst.
    cbn [Detection.probe_tools] in H. cbn [LanguageDetector.lookup].
    destruct (run (Detection.split_blanks c)) as [rc | | | e] eqn:R;
      try discriminate;
      rewrite (IH _ _ N' H tool);
      (destruct (String.eqb_spec t tool) as [<- | Hne];
       [rewrite (lookup_not_key _ _ Hnot), R; apply lookup_insert_eq
       | destruct (LanguageDetector.lookup tool cmds); [reflexivity |];
         now apply lookup_insert_ne]).
Qed.

(** A shell object built by the constructor counts a tool as available
    exactly when it is one of black, autopep8 and isort and its version
    probe ended with code 0 (a probe that timed out or found no program
    counts as unavailable). [execute_tool] therefore answers "Tool ... not
    available" for every other tool name: its "Unknown tool" answer cannot
    occur. *)
Theorem detected_shell_tools run mkdtemp write_temp communicate sh :
  Detection.init run mkdtemp write_temp communicate = inl sh ->
  forall tool,
    (default false (available_tools sh !! tool) = true <->
     In tool commands /\ run [tool; "--version"] = Detection.Completed 0) /\
    (forall path content,
       existsb (String.eqb tool) commands = false ->
       execute_tool sh tool path content
       = (false, content, ["Tool " +:+ tool +:+ " not available"])).
Proof.
  intros Hinit tool. unfold Detection.init in Hinit.
  destruct (Detection._detect_available_tools run) as [tools | e] eqn:D;
    [| discriminate].
  destruct mkdtemp as [e |]; [discriminate |].
  injection Hinit as <-. cbn [available_tools].
  assert (N : List.NoDup (List.map fst Detection.test_commands)).
  { cbn. repeat constructor; cbn; intuition discriminate. }
  pose proof (probe_tools_lookup run _ _ _ N D tool) as L.
  rewrite lookup_empty in L. unfold commands. cbn [existsb].
  unfold Detection.test_commands in L. cbn [LanguageDetector.lookup] in L.
  assert (A : default false (tools !! tool) = true <->
              In tool ["black"; "autopep8"; "isort"] /\
              run [tool; "--version"] = Detection.Completed 0).
  { rewrite L. cbn [In].
    destruct (String.eqb_spec "black" tool) as [<- | N1];
      [| destruct (String.eqb_spec "autopep8" tool) as [<- | N2];
         [| destruct (String.eqb_spec "isort" tool) as [<- | N3]]].
    all: cbv beta iota.
    1: solve [probe_verdict run].
    1: solve [probe_verdict run].
    1: solve [probe_verdict run].
    simpl. split; [discriminate |]. intros [X _]. intuition. }
  split; [exact A |].
  intros path content Hno. unfold execute_tool. cbn [available_tools].
  destruct (default false (tools !! tool)) eqn:Av; [| reflexivity].
  destruct (proj1 A eq_refl) as [Hin _]. cbn [In] in Hin.
  destruct Hin as [<- | [<- | [<- | []]]]; discriminate.
Qed.

Lemma detected_shell_tools_witness :
  (default false
     (available_tools
        (mkShell (<["isort" := false]> (<["autopep8" := false]>
                    (<["black" := true]> ∅)))
           (fun _ _ => None) (fun _ _ _ => TimedOut)) !! "black") = true <->
   In "black" commands /\
   only_black ["black"; "--version"] = Detection.Completed 0) /\
  (forall path content,
     existsb (String.eqb "black") commands = false ->
     execute_tool
       (mkShell (<["isort" := false]> (<["autopep8" := false]>
                   (<["black" := true]> ∅)))
          (fun _ _ => None) (fun _ _ _ => TimedOut)) "black" path content
     = (false, content, ["Tool " +:+ "black" +:+ " not available"])).
Proof.
  apply (detected_shell_tools only_black None (fun _ _ => None)
           (fun _ _ _ => TimedOut) _ eq_refl "black").
Defined.

(** ** The summary report *)

(** *** Divisions that cannot fail *)

Lemma truediv_defined x y : ~ (y == 0)%Q -> Report.truediv x y = inl (x / y)%Q.
Proof.
  intros H. unfold Report.truediv.
  destruct (Qeq_bool y 0) eqn:E; [| reflexivity].
  now apply Qeq_bool_iff in E.
Qed.

Lemma Q_of_nat_nonzero n : n <> 0%nat -> ~ (Q_of_nat n == 0)%Q.
Proof.
  intros H E. unfold Q_of_nat, Qeq in E. cbn [Qnum Qden inject_Z] in E. lia.
Qed.

Lemma per_second_defined n seconds :
  Report.per_second n seconds =
  inl (if Report.positive seconds then (Q_of_nat n / seconds)%Q else 0%Q).
Proof.
  unfold Report.per_second, Report.positive.
  destruct (Qle_bool seconds 0) eqn:E; cbn [negb]; [reflexivity |].
  apply truediv_defined. intros Z.
  assert (L : Qle_bool seconds 0 = true) by (apply Qle_bool_iff; rewrite Z; apply Qle_refl).
  congruence.
Qed.

Lemma sum_list_sum l : forall a, fold_left Nat.add l a = (a + list_sum l)%nat.
Proof.
  unfold list_sum.
  induction l as [| x l IH]; intros a; cbn [fold_left fold_right]; [lia |].
  rewrite IH. lia.
Qed.

(** *** The dict [by_language] *)

Lemma distinct_snoc l x :
  distinct (l ++ [x]) = if mem x (distinct l) then distinct l else distinct l ++ [x].
Proof. unfold distinct. now rewrite fold_left_app. Qed.

Lemma mem_In x l : mem x l = true <-> In x l.
Proof.
  unfold mem. rewrite existsb_exists. split.
  - intros (y & Hy & E). apply String.eqb_eq in E. now subst.
  - intros H. exists x. split; [exact H | apply String.eqb_refl].
Qed.

Lemma mem_app x l k : mem x (l ++ k) = mem x l || mem x k.
Proof. unfold mem. apply existsb_app. Qed.

Lemma distinct_In : forall l x, In x (distinct l) <-> In x l.
Proof.
  induction l as [| y l IH] using rev_ind; intros x; [reflexivity |].
  rewrite distinct_snoc, in_app_iff. cbn [In].
  destruct (mem y (distinct l)) eqn:M.
  - apply mem_In in M. rewrite IH in *. intuition (subst; auto).
  - rewrite in_app_iff, IH. cbn [In]. tauto.
Qed.

Lemma distinct_NoDup : forall l, List.NoDup (distinct l).
Proof.
  induction l as [| y l IH] using rev_ind; [constructor |].
  rewrite distinct_snoc. destruct (mem y (distinct l)) eqn:M; [exact IH |].
  apply List.NoDup_app; [exact IH | repeat constructor; intros [] |].
  intros x Hx [<- | []]. apply mem_In in Hx. congruence.
Qed.

Lemma of_language_snoc lang results r :
  of_language lang (results ++ [r]) =
  of_language lang results ++ (if String.eqb (language r) lang then [r] else []).
Proof. unfold of_language. now rewrite List.filter_app. Qed.

Lemma of_language_none lang results :
  ~ In lang (List.map language results) -> of_language lang results = [].
Proof.
  induction results as [| r results IH]; [reflexivity |].
  cbn [List.map In of_language List.filter]. intros H.
  destruct (String.eqb_spec (language r) lang) as [E | _]; [elim H; now left |].
  apply IH. intros Hin. apply H. now right.
Qed.

Lemma of_language_some lang results :
  In lang (List.map language results) -> of_language lang results <> [].
Proof.
  induction results as [| r results IH]; [intros [] |].
  cbn [List.map In of_language List.filter]. intros [<- | H].
  - now rewrite String.eqb_refl.
  - destruct (String.eqb (language r) lang); [discriminate | now apply IH].
Qed.

Lemma counted_snoc results r lang :
  counted (results ++ [r]) lang =
  if String.eqb lang (language r)
  then (lang,
        Report.mkLanguageStats
          (Report.files (snd (counted results lang)) + 1)
          (Report.errors (snd (counted results lang)) + length (original_errors r))
          (Report.fixes (snd (counted results lang)) + length (fixes_applied r))
          0)
  else counted results lang.
Proof.
  unfold counted. rewrite of_language_snoc, (String.eqb_sym lang).
  destruct (String.eqb (language r) lang); [| now rewrite app_nil_r].
  unfold issues_of, fixes_of. rewrite length_app, !List.map_app, !list_sum_app.
  cbn. now rewrite !Nat.add_0_r.
Qed.

Lemma record_result_counted results r :
  Report.record_result
    (List.map (counted results) (distinct (List.map language results))) r
  = List.map (counted (results ++ [r]))
      (distinct (List.map language (results ++ [r]))).
Proof.
  unfold Report.record_result.
  rewrite List.map_app. cbn [List.map]. rewrite distinct_snoc.
  set (keys := distinct (List.map language results)).
  assert (K : Report.has_key (language r) (List.map (counted results) keys)
              = mem (language r) keys).
  { unfold Report.has_key, mem. induction keys as [| k keys IHk]; [reflexivity |].
    cbn [List.map existsb counted fst]. now rewrite IHk, String.eqb_sym. }
  assert (P : forall l,
    Report.adjust (language r)
      (fun stats =>
         Report.mkLanguageStats (Report.files stats + 1)
           (Report.errors stats + length (original_errors r))
           (Report.fixes stats + length (fixes_applied r))
           (Report.language_success_rate stats))
      (List.map (counted results) l)
    = List.map (counted (results ++ [r])) l).
  { intros l. unfold Report.adjust. rewrite List.map_map. apply List.map_ext.
    intros k. rewrite counted_snoc. cbn [fst snd counted].
    destruct (String.eqb k (language r)); reflexivity. }
  rewrite K. destruct (mem (language r) keys) eqn:M; [apply P |].
  rewrite List.map_app. unfold Report.adjust at 1. rewrite List.map_app.
  fold (Report.adjust (language r)
          (fun stats =>
             Report.mkLanguageStats (Report.files stats + 1)
               (Report.errors stats + length (original_errors r))
               (Report.fixes stats + length (fixes_applied r))
               (Report.language_success_rate stats))
          (List.map (counted results) keys)).
  rewrite P. f_equal. cbn [List.map fst snd]. rewrite String.eqb_refl.
  rewrite counted_snoc, String.eqb_refl. unfold counted.
  rewrite of_language_none; [reflexivity |].
  intros Hin. apply distinct_In in Hin. apply mem_In in Hin. fold keys in Hin.
  congruence.
Qed.

Lemma fold_record_result : forall results done,
  fold_left Report.record_result results
    (List.map (counted done) (distinct (List.map language done)))
  = List.map (counted (done ++ results))
      (distinct (List.map language (done ++ results))).
Proof.
  induction results as [| r results IH]; intros done; cbn [fold_left].
  - now rewrite app_nil_r.
  - rewrite record_result_counted, IH, <- app_assoc. reflexivity.
Qed.

Lemma rate_languages results : forall keys,
  (forall k, In k keys -> In k (List.map language results)) ->
  Report.for_each (Report.rate_language results) (List.map (counted results) keys)
  = inl (List.map (language_entry results) keys).
Proof.
  induction keys as [| k keys IH]; intros H; [reflexivity |].
  cbn [List.map Report.for_each]. unfold Report.rate_language at 1.
  cbn [counted Report.files Report.errors Report.fixes].
  assert (N : of_language k results <> [])
    by (apply of_language_some, H; now left).
  assert (L : (0 <? length (of_language k results))%nat = true).
  { apply Nat.ltb_lt. destruct (of_language k results); [congruence | cbn; lia]. }
  rewrite L, truediv_defined.
  - cbn [Report.bind Report.ret]. rewrite IH by (intros k' Hk; apply H; now right).
    reflexivity.
  - apply Q_of_nat_nonzero. apply Nat.ltb_lt in L. lia.
Qed.

(** *** The dict [issue_counts] and the sort *)

Lemma split_two sep : forall s,
  has_char sep s = true -> exists a b rest, split sep s = a :: b :: rest.
Proof.
  induction s as [| c s IH]; cbn [has_char split]; [discriminate |].
  destruct (Ascii.eqb c sep) eqn:E.
  - intros _.
    destruct (split sep s) as [| b rest] eqn:S; [now elim (split_nonempty sep s) |].
    now exists "", b, rest.
  - cbn [orb]. intros H. destruct (IH H) as (a & b & rest & ->).
    now exists (String c a), b, rest.
Qed.

(** The index 1 that [_get_top_issues] reads exists whenever the entry
    has a colon. *)
Lemma issue_type_key error : Report.issue_type error = inl (issue_key error).
Proof.
  unfold Report.issue_type, issue_key.
  destruct (has_char ":" error) eqn:H; [| reflexivity].
  destruct (split_two _ _ H) as (a & b & rest & ->). reflexivity.
Qed.

Lemma count_errors_tally : forall errors issue_counts,
  Report.count_errors errors issue_counts
  = inl (fold_left (fun d key => Report.increment key d)
           (List.map issue_key errors) issue_counts).
Proof.
  induction errors as [| e errors IH]; intros d; [reflexivity |].
  cbn [Report.count_errors List.map fold_left]. rewrite issue_type_key.
  cbn [Report.bind]. apply IH.
Qed.

Lemma count_results_tally : forall results issue_counts,
  Report.count_results results issue_counts
  = inl (fold_left (fun d key => Report.increment key d)
           (issue_keys results) issue_counts).
Proof.
  induction results as [| r results IH]; intros d; [reflexivity |].
  cbn [Report.count_results]. rewrite count_errors_tally. cbn [Report.bind].
  rewrite IH. unfold issue_keys. cbn [flat_map].
  now rewrite List.map_app, fold_left_app.
Qed.

Lemma increment_keys key : forall d,
  List.map fst (Report.increment key d) =
  if mem key (List.map fst d) then List.map fst d else List.map fst d ++ [key].
Proof.
  induction d as [| [k n] d IH]; [reflexivity |].
  cbn [Report.increment List.map fst mem existsb].
  rewrite (String.eqb_sym key k).
  destruct (String.eqb k key); cbn [List.map fst orb]; [reflexivity |].
  rewrite IH. unfold mem. destruct (existsb _ _); reflexivity.
Qed.

Lemma increment_NoDup key d :
  List.NoDup (List.map fst d) -> List.NoDup (List.map fst (Report.increment key d)).
Proof.
  intros N. rewrite increment_keys.
  destruct (mem key (List.map fst d)) eqn:M; [exact N |].
  apply List.NoDup_app; [exact N | repeat constructor; intros [] |].
  intros x Hx [<- | []]. apply mem_In in Hx. congruence.
Qed.

Lemma increment_In key : forall d k n,
  List.NoDup (List.map fst d) ->
  (In (k, n) (Report.increment key d) <->
   (k <> key /\ In (k, n) d) \/
   (k = key /\ ((exists m, In (key, m) d /\ n = (m + 1)%nat) \/
                (~ In key (List.map fst d) /\ n = 1%nat)))).
Proof.
  induction d as [| [k0 n0] d IH]; intros k n N.
  - cbn. split.
    + intros [E | []]. injection E as <- <-. right. split; [reflexivity |].
      right. tauto.
    + intros [[_ []] | [-> [(m & [] & _) | [_ ->]]]]. now left.
  - cbn [List.map fst] in N. inversion N as [| ? ? Hnot N']; subst.
    cbn [Report.increment]. destruct (String.eqb_spec k0 key) as [-> | Hne].
    + cbn [In List.map fst]. split.
      * intros [E | H].
        -- injection E as <- <-. right. split; [reflexivity |]. left.
           exists n0. split; [now left | reflexivity].
        -- destruct (String.eqb_spec k key) as [-> | K].
           ++ elim Hnot. apply (in_map fst) in H. exact H.
           ++ left. split; [exact K | now right].
      * intros [[K [E | H]] | [-> [(m & [E | H] & ->) | [H _]]]].
        -- injection E as E _. now elim K.
        -- now right.
        -- injection E as <-. now left.
        -- elim Hnot. apply (in_map fst) in H. exact H.
        -- elim H. now left.
    + cbn [In List.map fst]. rewrite (IH k n N'). split.
      * intros [E | [[K H] | [-> [(m & H & ->) | [H ->]]]]].
        -- injection E as <- <-. left. split; [exact Hne | now left].
        -- left. split; [exact K | now right].
        -- right. split; [reflexivity |]. left. exists m. split; [now right | reflexivity].
        -- right. split; [reflexivity |]. right. split; [| reflexivity].
           intros [E | Hin]; [now elim Hne | now elim H].
      * intros [[K [E | H]] | [-> [(m & [E | H] & ->) | [H ->]]]].
        -- now left.
        -- right. left. now split.
        -- injection E as E _. now elim Hne.
        -- right. right. split; [reflexivity |]. left. now exists m.
        -- right. right. split; [reflexivity |]. right. split; [| reflexivity].
           intros Hin. apply H. now right.
Qed.

Lemma times_snoc key keys x :
  times key (keys ++ [x]) = (times key keys + (if String.eqb key x then 1 else 0))%nat.
Proof.
  unfold times. rewrite List.filter_app, length_app. cbn [List.filter].
  destruct (String.eqb key x); reflexivity.
Qed.

(** The dict of counts: its keys are distinct, and it binds a key to a
    count exactly when the count is positive and is the number of issues
    of that type. *)
Lemma tally_spec : forall keys,
  List.NoDup (List.map fst (tally keys)) /\
  forall k n, In (k, n) (tally keys) <-> (n = times k keys /\ (0 < n)%nat).
Proof.
  induction keys as [| x keys [N IH]] using rev_ind.
  - split; [constructor |]. intros k n. cbn. split; [intros [] | lia].
  - unfold tally in *. rewrite fold_left_app. cbn [fold_left].
    split; [now apply increment_NoDup |].
    intros k n. rewrite (increment_In x _ k n N), times_snoc.
    destruct (String.eqb_spec k x) as [-> | K].
    + split.
      * intros [[K _] | [_ [(m & H & ->) | [H ->]]]]; [now elim K | |].
        -- apply IH in H. lia.
        -- destruct (times x keys) as [| t] eqn:T; [lia |].
           elim H. apply (in_map fst _ (x, S t)). apply IH. lia.
      * intros [-> _]. right. split; [reflexivity |].
        destruct (times x keys) as [| t] eqn:T.
        -- right. split; [| reflexivity]. intros H.
           apply in_map_iff in H as ([k m] & E & H). cbn in E. subst k.
           apply IH in H. lia.
        -- left. exists (S t). split; [| lia]. apply IH. lia.
    + rewrite Nat.add_0_r, <- IH. split.
      * intros [[_ H] | [E _]]; [exact H | now elim K].
      * intros H. left. now split.
Qed.

Lemma insert_reverse_perm {A : Type} (key : A -> nat) x : forall l,
  Permutation (Report.insert_reverse key x l) (x :: l).
Proof.
  induction l as [| y l IH]; cbn [Report.insert_reverse]; [reflexivity |].
  destruct (key y <=? key x)%nat; [reflexivity |].
  rewrite IH. apply perm_swap.
Qed.

Lemma sorted_reverse_perm {A : Type} (key : A -> nat) : forall l,
  Permutation (Report.sorted_reverse key l) l.
Proof.
  induction l as [| x l IH]; [reflexivity |].
  unfold Report.sorted_reverse in *. cbn [fold_right].
  rewrite insert_reverse_perm. now constructor.
Qed.

Lemma insert_reverse_descending {A : Type} (key : A -> nat) x : forall l,
  descending (List.map key l) ->
  descending (List.map key (Report.insert_reverse key x l)).
Proof.
  induction l as [| y l IH]; intros D; [cbn; auto |].
  cbn [List.map descending] in D. destruct D as [F D].
  cbn [Report.insert_reverse].
  destruct (key y <=? key x)%nat eqn:E.
  - apply Nat.leb_le in E. cbn [List.map descending]. repeat split; auto.
    constructor; [exact E |].
    eapply List.Forall_impl; [| exact F]. cbn. intros m Hm. lia.
  - apply Nat.leb_gt in E. cbn [List.map descending]. split; [| now apply IH].
    apply List.Forall_forall. intros m Hm.
    apply in_map_iff in Hm as (z & <- & Hz).
    apply (Permutation_in _ (insert_reverse_perm key x l)) in Hz.
    destruct Hz as [<- | Hz]; [lia |].
    apply (proj1 (List.Forall_forall _ _) F). now apply in_map.
Qed.

Lemma sorted_reverse_descending {A : Type} (key : A -> nat) : forall l,
  descending (List.map key (Report.sorted_reverse key l)).
Proof.
  induction l as [| x l IH]; [exact I |].
  unfold Report.sorted_reverse in *. cbn [fold_right].
  now apply insert_reverse_descending.
Qed.

Lemma descending_app : forall l1 l2,
  descending (l1 ++ l2) ->
  descending l1 /\ forall a b, In a l1 -> In b l2 -> (b <= a)%nat.
Proof.
  induction l1 as [| n l1 IH]; intros l2 D; cbn [app descending] in *.
  - split; [exact I | intros a b []].
  - destruct D as [F D]. destruct (IH _ D) as [D1 H]. apply Forall_app in F as [F1 F2].
    repeat split; auto.
    intros a b [<- | Ha] Hb; [| now apply H].
    apply (proj1 (List.Forall_forall _ _) F2 b Hb).
Qed.

(** *** The report as a whole *)

Lemma first_loop_counted results :
  fold_left Report.record_result results []
  = List.map (counted results) (distinct (List.map language results)).
Proof. exact (fold_record_result results []). Qed.

(** The report of a non-empty list of results, section by section: none
    of its divisions fails and the index into the split entry exists. *)
Lemma get_summary_report_sections results :
  results <> [] ->
  Report.get_summary_report results =
  inl (Report.Sections
         (Report.mkSummary (length results) (length (List.filter success results))
            (Q_of_nat (length (List.filter success results))
             / Q_of_nat (length results) * 100)%Q
            (issues_of results) (fixes_of results)
            (Report.sum_seconds (List.map processing_time results)
             / Q_of_nat (length results))%Q
            (Q_of_nat (fixes_of results)
             / Q_of_nat (Nat.max (issues_of results) 1))%Q)
         (List.map (language_entry results) (distinct (List.map language results)))
         (List.map (fun item => Report.mkIssue (fst item) (snd item))
            (firstn 10 (Report.sorted_reverse snd (tally (issue_keys results)))))
         (Report.mkPerformance
            (if Report.positive (Report.sum_seconds (List.map processing_time results))
             then (Q_of_nat (length results)
                   / Report.sum_seconds (List.map processing_time results))%Q
             else 0%Q)
            (if Report.positive (Report.sum_seconds (List.map processing_time results))
             then (Q_of_nat (fixes_of results)
                   / Report.sum_seconds (List.map processing_time results))%Q
             else 0%Q))).
Proof.
  intros N. unfold Report.get_summary_report.
  destruct results as [| r rs]; [congruence |]. cbv beta iota.
  set (results := r :: rs) in *.
  assert (L : length results <> 0%nat) by (subst results; cbn; lia).
  unfold Report.sum. rewrite !sum_list_sum. cbn [Nat.add].
  fold (issues_of results). fold (fixes_of results).
  rewrite (truediv_defined _ _ (Q_of_nat_nonzero _ L)). cbn [Report.bind].
  rewrite first_loop_counted.
  rewrite rate_languages by (intros k Hk; now apply distinct_In).
  cbn [Report.bind].
  rewrite (truediv_defined _ _ (Q_of_nat_nonzero _ L)). cbn [Report.bind].
  rewrite truediv_defined by (apply Q_of_nat_nonzero; lia). cbn [Report.bind].
  unfold Report._get_top_issues. rewrite count_results_tally.
  cbn [Report.bind Report.ret]. fold (tally (issue_keys results)).
  rewrite !per_second_defined. cbn [Report.bind]. reflexivity.
Qed.

(** [get_summary_report] raises nothing: it answers with the message for
    an empty list and with the four sections otherwise, the number of
    files being the number of results. *)
Theorem get_summary_report_returns results :
  match Report.get_summary_report results with
  | inl (Report.Message text) =>
      results = [] /\ text = "No results to analyze"
  | inl (Report.Sections summary _ _ _) =>
      results <> [] /\ Report.total_files summary = length results
  | inr _ => False
  end.
Proof.
  destruct results as [| r rs]; [cbn; auto |].
  rewrite get_summary_report_sections by discriminate.
  split; [discriminate | reflexivity].
Qed.

(** The section by_language has one entry per language of the results, in
    the order in which the languages first occur; the entry of a language
    counts its files, issues and fixes, and its rate is the share of its
    successful files in percent. *)
Theorem by_language_groups results :
  match Report.get_summary_report results with
  | inl (Report.Sections _ by_language _ _) =>
      by_language
      = List.map (language_entry results) (distinct (List.map language results)) /\
      List.NoDup (List.map fst by_language) /\
      forall lang, In lang (List.map fst by_language)
                   <-> In lang (List.map language results)
  | _ => results = []
  end.
Proof.
  destruct results as [| r rs]; [reflexivity |].
  rewrite get_summary_report_sections by discriminate.
  assert (N : r :: rs <> []) by discriminate.
  revert N. generalize (r :: rs). intros results N.
  assert (K : List.map fst
                (List.map (language_entry results)
                   (distinct (List.map language results)))
              = distinct (List.map language results)).
  { rewrite List.map_map. cbn [language_entry fst]. apply List.map_id. }
  rewrite K. repeat split.
  - apply distinct_NoDup.
  - now apply distinct_In.
  - now apply distinct_In.
Qed.

(** *** The entries of by_language add up to the totals *)

Lemma list_sum_add {A : Type} (f g : A -> nat) : forall l,
  list_sum (List.map (fun x => (f x + g x)%nat) l)
  = (list_sum (List.map f l) + list_sum (List.map g l))%nat.
Proof.
  induction l as [| x l IH]; [reflexivity |]. cbn [List.map list_sum fold_right] in *.
  unfold list_sum in *. cbn [fold_right]. rewrite IH. lia.
Qed.

Lemma list_sum_one key c : forall keys,
  List.NoDup keys -> In key keys ->
  list_sum (List.map (fun k => if String.eqb key k then c else 0%nat) keys) = c.
Proof.
  induction keys as [| k keys IH]; intros N Hin; [destruct Hin |].
  inversion N as [| ? ? Hnot N']; subst. cbn [List.map].
  change (list_sum (?x :: ?l)) with (x + list_sum l)%nat.
  destruct Hin as [-> | Hin].
  - rewrite String.eqb_refl.
    assert (Z : list_sum (List.map (fun k => if String.eqb key k then c else 0%nat) keys)
                = 0%nat).
    { clear IH N N'. induction keys as [| k keys IH]; [reflexivity |].
      cbn [List.map]. change (list_sum (?x :: ?l)) with (x + list_sum l)%nat.
      destruct (String.eqb_spec key k) as [-> | _]; [elim Hnot; now left |].
      rewrite IH; [reflexivity |]. intros H. apply Hnot. now right. }
    rewrite Z. lia.
  - destruct (String.eqb_spec key k) as [-> | _]; [now elim Hnot |].
    now rewrite IH.
Qed.

(** Summing a quantity over the results language by language gives its sum
    over all results. *)
Lemma partition_sum (w : FixResult -> nat) keys :
  List.NoDup keys ->
  forall results,
  (forall r, In r results -> In (language r) keys) ->
  list_sum (List.map (fun k => list_sum (List.map w (of_language k results))) keys)
  = list_sum (List.map w results).
Proof.
  intros N. induction results as [| r results IH]; intros H.
  - cbn. induction keys as [| k keys IHk]; [reflexivity |]. cbn.
    inversion N; subst. now apply IHk.
  - cbn [List.map].
    change (list_sum (w r :: List.map w results))
      with (w r + list_sum (List.map w results))%nat.
    rewrite <- IH by (intros r' Hr; apply H; now right).
    rewrite <- (list_sum_one (language r) (w r) keys N (H r (or_introl eq_refl))).
    rewrite <- list_sum_add. f_equal. apply List.map_ext. intros k.
    unfold of_language. cbn [List.filter].
    destruct (String.eqb (language r) k); reflexivity.
Qed.

(** The files, the issues and the fixes of by_language add up to
    total_files, total_errors_found and total_fixes_applied: every result
    is counted under exactly one language. *)
Theorem by_language_partition results :
  match Report.get_summary_report results with
  | inl (Report.Sections summary by_language _ _) =>
      list_sum (List.map (fun item => Report.files (snd item)) by_language)
      = Report.total_files summary /\
      list_sum (List.map (fun item => Report.errors (snd item)) by_language)
      = Report.total_errors_found summary /\
      list_sum (List.map (fun item => Report.fixes (snd item)) by_language)
      = Report.total_fixes_applied summary /\
      Report.total_errors_found summary = issues_of results /\
      Report.total_fixes_applied summary = fixes_of results
  | _ => results = []
  end.
Proof.
  destruct results as [| r rs]; [reflexivity |].
  rewrite get_summary_report_sections by discriminate.
  assert (N : r :: rs <> []) by discriminate.
  revert N. generalize (r :: rs). intros results N.
  cbn [Report.total_files Report.total_errors_found Report.total_fixes_applied].
  rewrite !List.map_map. cbn [language_entry snd Report.files Report.errors Report.fixes].
  assert (C : forall r', In r' results ->
                         In (language r') (distinct (List.map language results))).
  { intros r' Hr. apply distinct_In. now apply in_map. }
  pose proof (distinct_NoDup (List.map language results)) as D.
  repeat split.
  - assert (E : forall l : list FixResult,
                length l = list_sum (List.map (fun _ => 1%nat) l)).
    { induction l as [| x l IH]; [reflexivity |]. cbn [length List.map].
      change (list_sum (?a :: ?b)) with (a + list_sum b)%nat. now rewrite <- IH. }
    rewrite (E results).
    rewrite <- (partition_sum (fun _ => 1%nat) _ D results C).
    f_equal. apply List.map_ext. intros k. apply E.
  - exact (partition_sum _ _ D results C).
  - exact (partition_sum _ _ D results C).
Qed.

(** *** Rates *)

Lemma share_bounds s n :
  (s <= n)%nat -> (0 < n)%nat ->
  (0 <= Q_of_nat s / Q_of_nat n * 100 /\ Q_of_nat s / Q_of_nat n * 100 <= 100)%Q.
Proof.
  intros Hs Hn.
  assert (P : (0 < Q_of_nat n)%Q).
  { unfold Q_of_nat. rewrite <- (Zlt_Qlt 0). lia. }
  assert (S0 : (0 <= Q_of_nat s)%Q).
  { unfold Q_of_nat. rewrite <- (Zle_Qle 0). lia. }
  assert (SN : (Q_of_nat s <= Q_of_nat n)%Q).
  { unfold Q_of_nat. rewrite <- Zle_Qle. lia. }
  split.
  - apply Qmult_le_0_compat; [| discriminate].
    apply Qle_shift_div_l; [exact P |]. now rewrite Qmult_0_l.
  - apply (Qle_trans _ (1 * 100)%Q); [| discriminate].
    apply Qmult_le_compat_r; [| discriminate].
    apply Qle_shift_div_r; [exact P |]. now rewrite Qmult_1_l.
Qed.

Lemma successful_for_le lang results :
  (Report.successful_for lang results <= length (of_language lang results))%nat.
Proof.
  unfold Report.successful_for, of_language.
  induction results as [| r results IH]; cbn [List.filter]; [lia |].
  destruct (String.eqb (language r) lang), (success r); cbn [andb length]; lia.
Qed.

(** Both rates of the report are percentages: the overall success rate
    and the rate of every language lie between 0 and 100 (the running
    success_rate of the statistics does not). *)
Theorem report_rates_bounded results :
  match Report.get_summary_report results with
  | inl (Report.Sections summary by_language _ _) =>
      (0 <= Report.success_rate summary /\ Report.success_rate summary <= 100)%Q /\
      forall lang stats, In (lang, stats) by_language ->
        (0 <= Report.language_success_rate stats /\
         Report.language_success_rate stats <= 100)%Q
  | _ => results = []
  end.
Proof.
  destruct results as [| r rs]; [reflexivity |].
  rewrite get_summary_report_sections by discriminate.
  assert (N : r :: rs <> []) by discriminate.
  revert N. generalize (r :: rs). intros results N. cbn [Report.success_rate]. split.
  - apply share_bounds; [apply filter_length_le |].
    destruct results; [congruence | cbn; lia].
  - intros lang stats H. apply in_map_iff in H as (k & E & Hk).
    injection E as <- <-. cbn [Report.language_success_rate].
    apply share_bounds; [apply successful_for_le |].
    apply (proj1 (distinct_In _ _)) in Hk. apply of_language_some in Hk.
    destruct (of_language k results); [congruence | cbn; lia].
Qed.

(** *** The section top_issues *)

Lemma firstn_In {A : Type} n (l : list A) x : In x (firstn n l) -> In x l.
Proof.
  intros H. rewrite <- (firstn_skipn n l). apply in_or_app. now left.
Qed.

(** The section top_issues holds at most ten issue types, each once, in
    descending order of count; the count of a type is the number of issues
    of that type over all results; and a type that is left out is no more
    frequent than any type that is listed. *)
Theorem top_issues_ranked results :
  match Report.get_summary_report results with
  | inl (Report.Sections _ _ top _) =>
      (length top <= 10)%nat /\
      List.NoDup (List.map Report.issue top) /\
      descending (List.map Report.count top) /\
      (forall i, In i top ->
         Report.count i = occurrences (Report.issue i) results /\
         (0 < Report.count i)%nat) /\
      (forall key, (0 < occurrences key results)%nat ->
         In (Report.mkIssue key (occurrences key results)) top \/
         (length top = 10%nat /\
          forall i, In i top -> (occurrences key results <= Report.count i)%nat))
  | _ => results = []
  end.
Proof.
  destruct results as [| r rs]; [reflexivity |].
  rewrite get_summary_report_sections by discriminate.
  generalize (r :: rs). intros results. unfold occurrences.
  destruct (tally_spec (issue_keys results)) as [N T].
  set (sorted := Report.sorted_reverse snd (tally (issue_keys results))).
  pose proof (sorted_reverse_perm snd (tally (issue_keys results))) as P.
  pose proof (sorted_reverse_descending snd (tally (issue_keys results))) as D.
  fold sorted in P, D.
  assert (I : forall k n, In (k, n) sorted <->
                          n = times k (issue_keys results) /\ (0 < n)%nat).
  { intros k n. rewrite <- T. split; apply Permutation_in;
      [exact P | now apply Permutation_sym]. }
  rewrite <- (firstn_skipn 10 sorted) in D. rewrite List.map_app in D.
  apply descending_app in D as [D1 D2].
  repeat split.
  - rewrite length_map. apply firstn_le_length.
  - rewrite List.map_map. cbn [Report.issue].
    rewrite <- firstn_map.
    apply (NoDup_app_remove_r _ (skipn 10 (List.map fst sorted))).
    rewrite firstn_skipn.
    apply (Permutation_NoDup (Permutation_sym (Permutation_map fst P)) N).
  - rewrite List.map_map. cbn [Report.count]. exact D1.
  - apply in_map_iff in H as ([k n] & <- & Hin). cbn [Report.count Report.issue fst snd].
    apply firstn_In in Hin. now apply I in Hin.
  - apply in_map_iff in H as ([k n] & <- & Hin). cbn [Report.count Report.issue fst snd].
    apply firstn_In in Hin. now apply I in Hin.
  - intros key Hpos.
    assert (Hin : In (key, times key (issue_keys results)) sorted)
      by (apply I; split; [reflexivity | exact Hpos]).
    rewrite <- (firstn_skipn 10 sorted) in Hin. apply in_app_or in Hin as [Hin | Hin].
    + left. apply in_map_iff. now exists (key, times key (issue_keys results)).
    + right. split.
      * rewrite length_map. apply firstn_length_le.
        destruct (Nat.le_gt_cases 10 (length sorted)) as [L | L]; [exact L |].
        rewrite skipn_all2 in Hin by lia. destruct Hin.
      * intros i Hi. apply in_map_iff in Hi as ([k n] & <- & Hk).
        cbn [Report.count snd].
        apply (D2 n (times key (issue_keys results))).
        -- now apply (in_map snd _ (k, n)).
        -- now apply (in_map snd _ (key, times key (issue_keys results))).
Qed.

(** *** The issue type of the engine's entries *)

Lemma uint_no_colon : forall u,
  has_char ":" (NilEmpty.string_of_uint u) = false.
Proof. induction u; cbn; auto. Qed.

Lemma str_of_nat_no_colon n : has_char ":" (str_of_nat n) = false.
Proof. apply uint_no_colon. Qed.

(** The entry the engine logs for a configured rule, "Line n: " followed
    by the rule's description, is counted under that description, whatever
    the line number. *)
Theorem issue_type_of_rule_entry language patterns name r n :
  LanguageDetector.lookup language fix_patterns = Some patterns ->
  In (name, r) patterns ->
  Report.issue_type ("Line " +:+ str_of_nat n +:+ ": " +:+ description r)
  = inl (description r).
Proof.
  intros L Hin. rewrite issue_type_key. f_equal. unfold issue_key.
  assert (S : split ":" ("Line " +:+ str_of_nat n +:+ ": " +:+ description r)
              = ("Line " +:+ str_of_nat n) :: split ":" (" " +:+ description r)).
  { change (": " +:+ description r) with (String ":" (" " +:+ description r)).
    rewrite <- append_assoc, split_app_sep, split_no_sep; [reflexivity |].
    rewrite has_char_append, str_of_nat_no_colon. reflexivity. }
  assert (C : has_char ":" ("Line " +:+ str_of_nat n +:+ ": " +:+ description r)
              = true).
  { rewrite !has_char_append. cbn. now rewrite !orb_true_r. }
  rewrite C, S. cbn [nth].
  apply lookup_In in L. cbn in L.
  destruct L as [<- | [<- | [<- | []]]]; cbn in Hin;
    repeat (destruct Hin as [Hin | Hin]; [injection Hin as <- <-; reflexivity |]);
    contradiction.
Qed.

Lemma issue_type_of_rule_entry_witness :
  Report.issue_type ("Line " +:+ str_of_nat 12 +:+ ": " +:+ description missing_colon)
  = inl (description missing_colon).
Proof.
  apply (issue_type_of_rule_entry "python" (rules_of "python") "missing_colon"
           missing_colon 12).
  - reflexivity.
  - now left.
Defined.

(** *** The report of a repository run *)

Lemma fix_repository_nonempty self fs clock repo_path :
  fst (fix_repository self fs clock repo_path) <> [].
Proof.
  destruct (path_exists fs (Paths.str repo_path)) eqn:He.
  - destruct (discover fs repo_path) as [| f files] eqn:D.
    + unfold fix_repository. rewrite He, D. discriminate.
    + assert (Hd : discover fs repo_path <> []) by (rewrite D; discriminate).
      rewrite (fix_repository_results _ _ _ _ He Hd).
      pose proof (prepare_gather_paths clock (discover fs repo_path) self) as P.
      apply Permutation_length in P. rewrite !length_map in P.
      intros E. rewrite E, D in P. discriminate.
  - unfold fix_repository. rewrite He. discriminate.
Qed.

(** The command line asks for the summary section of the report of a
    repository run: the run always returns at least one result, so the
    report always has its four sections, never the message alone. *)
Theorem report_of_repository self fs clock repo_path :
  match Report.get_summary_report (fst (fix_repository self fs clock repo_path)) with
  | inl (Report.Sections summary _ _ _) =>
      (1 <= Report.total_files summary)%nat /\
      Report.total_files summary
      = length (fst (fix_repository self fs clock repo_path))
  | _ => False
  end.
Proof.
  pose proof (fix_repository_nonempty self fs clock repo_path) as N.
  rewrite (get_summary_report_sections _ N). cbn [Report.total_files].
  split; [| reflexivity].
  destruct (fst (fix_repository self fs clock repo_path)); [congruence | cbn; lia].
Qed.
